(** * AskHogwarts: the document-to-chunk pipeline

    A shallow embedding of [app/utils/text_processing.py] (the text
    normalizer [clean_text], chapter headers and character mentions),
    of [app/services/pdf_processor.py] (the [PDFProcessor] class:
    construction, [process_pdf], [save_to_json]), of
    [app/services/vector_store.py] ([upsert_documents]) and of the
    status handling of [app/api/routes/document.py], with the
    properties the specification states about them and further
    properties read off the code.

    Python [str] values are sequences of Unicode code points; they are
    modelled as lists of code points ([N]).  Python [int] is [Z], a
    [dict] used as a map is a [gmap], and an exception is a value of the
    [exn] type carried by the [Raise] branch of [result]. *)

From Stdlib Require Import ZArith NArith QArith Qround Lia String Ascii DecimalString.
From Stdlib Require DecimalPos DecimalZ.
From stdpp Require Import base option list strings gmap.

Local Open Scope N_scope.
Set Warnings "-register-all".

(** ** Python strings *)

Module PyStr.

Abbreviation text := (list N).

(** The code points of an ASCII literal. *)
Definition str (s : string) : text :=
  N_of_ascii <$> list_ascii_of_string s.

Definition in_range (lo hi c : N) : bool := (lo <=? c) && (c <=? hi).

(** [str.isspace()] on one code point; the regular expression class
    [\s] of a [str] pattern and [str.strip()] use the same predicate. *)
Definition is_space (c : N) : bool :=
  in_range 9 13 c || in_range 28 32 c || (c =? 133) || (c =? 160)
  || (c =? 5760) || in_range 8192 8202 c || (c =? 8232) || (c =? 8233)
  || (c =? 8239) || (c =? 8287) || (c =? 12288).

(** The class [[a-z]]. *)
Definition is_lower_az (c : N) : bool := in_range 97 122 c.

(** The class [\w] on ASCII: letters, digits and the underscore. *)
Definition is_word_ascii (c : N) : bool :=
  in_range 48 57 c || in_range 65 90 c || (c =? 95) || in_range 97 122 c.

(** The class [\w] of a [str] pattern: alphanumeric in the Unicode
    database, or the underscore.  The database beyond ASCII is the
    interpreter's; it is the parameter [uni_alnum]. *)
Definition is_word (uni_alnum : N -> bool) (c : N) : bool :=
  if c <? 128 then is_word_ascii c else uni_alnum c.

(** Length of the longest prefix whose characters all satisfy [p]. *)
Fixpoint span_len (p : N -> bool) (t : text) : nat :=
  match t with
  | c :: tl => if p c then S (span_len p tl) else O
  | [] => O
  end.

(** [str.strip()]: leading and trailing whitespace removed. *)
Definition lstrip (t : text) : text := drop (span_len is_space t) t.
Definition rstrip (t : text) : text := reverse (lstrip (reverse t)).
Definition strip (t : text) : text := rstrip (lstrip t).

(** [sep.join(parts)]. *)
Fixpoint join (sep : text) (parts : list text) : text :=
  match parts with
  | [] => []
  | [p] => p
  | p :: rest => p ++ sep ++ join sep rest
  end.

(** [a.startswith(b)]. *)
Fixpoint starts_with (b a : text) : bool :=
  match b, a with
  | [], _ => true
  | x :: b', y :: a' => (x =? y) && starts_with b' a'
  | _ :: _, [] => false
  end.

(** [b in a] for strings: [b] occurs in [a] as a contiguous run. *)
Fixpoint contains (b a : text) : bool :=
  starts_with b a ||
  match a with
  | [] => false
  | _ :: a' => contains b a'
  end.

(** ** [re.sub] for patterns that match no empty string

    [re.sub] scans the text from the left.  At a position where the
    pattern matches, the replacement is emitted and the scan resumes
    right after the match; elsewhere the character is copied.  A
    matcher [m] gives, for the text from the current position on, the
    replacement and the number of characters the match consumes.
    [skip] counts the characters of the current match still to pass. *)
Fixpoint re_sub_from (m : text -> option (text * nat)) (skip : nat) (t : text) : text :=
  match t with
  | [] => []
  | c :: tl =>
      match skip with
      | S k => re_sub_from m k tl
      | O =>
          match m t with
          | Some (repl, n) => repl ++ re_sub_from m (pred n) tl
          | None => c :: re_sub_from m O tl
          end
      end
  end.

Definition re_sub (m : text -> option (text * nat)) (t : text) : text :=
  re_sub_from m O t.

End PyStr.

(** ** [app/utils/text_processing.py] *)

Module TextProcessing.
Import PyStr.

(** [\s+], replaced by one space: a maximal run of whitespace. *)
Definition match_spaces (t : text) : option (text * nat) :=
  match span_len is_space t with
  | O => None
  | n => Some ([32], n)
  end.

(** [(\w+)-\n(\w+)], replaced by [\1\2].  A hyphen is no word
    character, so the first group is the whole run of word characters
    at the position: a shorter one is followed by a word character, not
    by the hyphen. *)
Definition match_hyphen_newline (uni_alnum : N -> bool) (t : text) : option (text * nat) :=
  let w := is_word uni_alnum in
  let n1 := span_len w t in
  match n1, drop n1 t with
  | S _, h :: nl :: t2 =>
      let n2 := span_len w t2 in
      if (h =? 45) && (nl =? 10) && negb (Nat.eqb n2 0)
      then Some (take n1 t ++ take n2 t2, (n1 + 2 + n2)%nat)
      else None
  | _, _ => None
  end.

(** [([a-z])- ([a-z])], replaced by [\1\2]. *)
Definition match_hyphen_space (t : text) : option (text * nat) :=
  match t with
  | a :: h :: s :: b :: _ =>
      if is_lower_az a && (h =? 45) && (s =? 32) && is_lower_az b
      then Some ([a; b], 4%nat)
      else None
  | _ => None
  end.

(** [\f], replaced by one space. *)
Definition match_form_feed (t : text) : option (text * nat) :=
  match t with
  | c :: _ => if c =? 12 then Some ([32], 1%nat) else None
  | [] => None
  end.

(** Position of the last newline among the first [n] characters. *)
Fixpoint last_newline (n : nat) (t : text) : option nat :=
  match n, t with
  | S k, c :: tl =>
      match last_newline k tl with
      | Some j => Some (S j)
      | None => if c =? 10 then Some O else None
      end
  | _, _ => None
  end.

(** [\n\s*\n], replaced by one newline.  [\s*] is greedy and a newline
    is whitespace, so the match runs from a newline to the last newline
    of the whitespace run that follows it. *)
Definition match_blank_lines (t : text) : option (text * nat) :=
  match t with
  | c :: tl =>
      if c =? 10 then
        match last_newline (span_len is_space tl) tl with
        | Some j => Some ([10], (j + 2)%nat)
        | None => None
        end
      else None
  | [] => None
  end.

Definition collapse_whitespace : text -> text := re_sub match_spaces.
Definition join_hyphen_newline (ua : N -> bool) : text -> text :=
  re_sub (match_hyphen_newline ua).
Definition join_hyphen_space : text -> text := re_sub match_hyphen_space.
Definition replace_form_feeds : text -> text := re_sub match_form_feed.
Definition collapse_blank_lines : text -> text := re_sub match_blank_lines.

(** [clean_text]: the six steps, in the order of the source. *)
Definition clean_text (ua : N -> bool) (t : text) : text :=
  let t := collapse_whitespace t in
  let t := join_hyphen_newline ua t in
  let t := join_hyphen_space t in
  let t := replace_form_feeds t in
  let t := collapse_blank_lines t in
  strip t.

End TextProcessing.

(** ** Python values, exceptions and results *)

Module Py.
Import PyStr.

(** Exceptions, each with the message [str(e)] gives. *)
Inductive exn : Type :=
  | FileNotFoundError (msg : text)
  | ZeroDivisionError (msg : text)
  | ValueError (msg : text)
  | KeyError (msg : text)
  | UnicodeEncodeError (msg : text)
  | OSError (msg : text)
  | TypeError (msg : text)
  | InvalidChunkConfig (msg : text)
  | OtherError (msg : text).

Definition exn_str (e : exn) : text :=
  match e with
  | FileNotFoundError m | ZeroDivisionError m | ValueError m | KeyError m
  | UnicodeEncodeError m | OSError m | TypeError m | InvalidChunkConfig m
  | OtherError m => m
  end.

(** A computation that returns a value or raises. *)
Inductive result (A : Type) : Type :=
  | Return (a : A)
  | Raise (e : exn).
Arguments Return {A} a.
Arguments Raise {A} e.

#[export] Instance result_ret : MRet result := fun A a => Return a.
#[export] Instance result_bind : MBind result := fun A B f m =>
  match m with
  | Return a => f a
  | Raise e => Raise e
  end.

Definition succeeded {A} (m : result A) : bool :=
  match m with Return _ => true | Raise _ => false end.

(** Values stored in the metadata dictionary. [PFloat] holds the exact
    quotient; Python rounds it to a binary64 float. *)
Inductive pyval : Type :=
  | PStr (t : text)
  | PInt (z : Z)
  | PFloat (q : Q)
  | PDict (d : list (text * pyval))
  | POther (repr : text).

(** [a // b] on integers. *)
Definition floordiv (a b : Z) : result Z :=
  if (b =? 0)%Z then Raise (ZeroDivisionError (str "integer division or modulo by zero"))
  else Return (a / b)%Z.

(** [a / b] on integers. *)
Definition truediv (a b : Z) : result Q :=
  if (b =? 0)%Z then Raise (ZeroDivisionError (str "division by zero"))
  else Return (inject_Z a / inject_Z b)%Q.

(** [len(s.split())]: the number of maximal runs of non-whitespace. *)
Fixpoint count_words_from (in_word : bool) (t : text) : nat :=
  match t with
  | [] => O
  | c :: tl =>
      if is_space c then count_words_from false tl
      else if in_word then count_words_from true tl
      else S (count_words_from true tl)
  end.
Definition count_words (t : text) : nat := count_words_from false t.

(** [len(s.encode('utf-8'))]; a surrogate code point cannot be encoded. *)
Definition utf8_width (c : N) : option nat :=
  if c <? 128 then Some 1%nat
  else if c <? 2048 then Some 2%nat
  else if in_range 55296 57343 c then None
  else if c <? 65536 then Some 3%nat
  else Some 4%nat.

Fixpoint utf8_len (t : text) : result nat :=
  match t with
  | [] => Return O
  | c :: tl =>
      match utf8_width c with
      | None => Raise (UnicodeEncodeError (str "'utf-8' codec can't encode character: surrogates not allowed"))
      | Some w => n ← utf8_len tl; Return (w + n)%nat
      end
  end.

(** [str.lower()].  On a text of ASCII characters it maps [A-Z] to
    [a-z]; on any other text it is what the Unicode database gives,
    the parameter [uni_lower]. *)
Definition lower_ascii (c : N) : N := if in_range 65 90 c then c + 32 else c.
Definition lower (uni_lower : text -> text) (t : text) : text :=
  if forallb (fun c => c <? 128) t then lower_ascii <$> t else uni_lower t.

(** [str(i)] for an integer. *)
Definition str_of_int (i : Z) : text := str (NilZero.string_of_int (Z.to_int i)).

End Py.
(** ** The recursive chunker

    [PDFProcessor] delegates splitting to the class
    [RecursiveCharacterTextSplitter] of the [langchain] package, whose
    code is not part of the repository.  This module follows the
    specification's description of the chunker (section 4.4). *)

Module Chunker.
Import PyStr Py.

(** Modelled from the spec: splitting a text at a separator (the code
    is langchain's).  A new piece starts at every later position where
    the separator occurs, so the pieces concatenate to the text; for
    the empty separator, the split at any character boundary, every
    character is a piece. *)
Fixpoint split_before (sep : text) (t : text) : list text :=
  match t with
  | [] => []
  | c :: tl =>
      match starts_with sep tl, split_before sep tl with
      | false, p :: ps => (c :: p) :: ps
      | _, ps => [c] :: ps
      end
  end.

(** Modelled from the spec: the hard cut at the character boundary,
    once the separator list is exhausted (the code is langchain's):
    pieces of [size] characters, the last one shorter. *)
Fixpoint hard_cut_fuel (fuel size : nat) (t : text) : list text :=
  match fuel, t with
  | S f, _ :: _ => take size t :: hard_cut_fuel f size (drop size t)
  | _, _ => []
  end.

Definition hard_cut (size : nat) (t : text) : list text :=
  hard_cut_fuel (length t) size t.

(** Modelled from the spec: the recursive split (the code is
    langchain's).  The text is split at the highest-priority separator
    present; a resulting segment that still exceeds the target size is
    split again with the separators of lower priority, until segments
    fit or the list is exhausted. *)
Fixpoint split_segments (size : nat) (seps : list text) (t : text) : list text :=
  match seps with
  | [] => hard_cut size t
  | sep :: lower_seps =>
      if contains sep t then
        seg ← split_before sep t;
        if (length seg <=? size)%nat then [seg]
        else split_segments size lower_seps seg
      else split_segments size lower_seps t
  end.

(** Modelled from the spec: the greedy merge of adjacent segments into
    chunks up to the target size (the code is langchain's).  [cur] is
    the chunk being filled. *)
Fixpoint merge_greedy (size : nat) (cur : text) (segs : list text) : list text :=
  match segs with
  | [] => match cur with [] => [] | _ => [cur] end
  | s :: rest =>
      match cur with
      | [] => merge_greedy size s rest
      | _ =>
          if (length cur + length s <=? size)%nat
          then merge_greedy size (cur ++ s) rest
          else cur :: merge_greedy size s rest
      end
  end.

(** Modelled from the spec: the overlap of one merge step (the code is
    langchain's): the configured overlap, clamped down to the size of
    the preceding chunk less one. *)
Definition step_overlap (overlap : nat) (prev : text) : nat :=
  if (length prev <=? overlap)%nat then (length prev - 1)%nat else overlap.

(** Modelled from the spec: the start of each chunk after the first is
    shifted backward by the overlap, so it begins with the tail of the
    chunk before it (the code is langchain's). *)
Fixpoint shift_starts (overlap : nat) (prev : text) (merged : list text) : list text :=
  match merged with
  | [] => []
  | g :: rest =>
      (drop (length prev - step_overlap overlap prev) prev ++ g)
        :: shift_starts overlap g rest
  end.

Definition with_overlap (overlap : nat) (merged : list text) : list text :=
  match merged with
  | [] => []
  | g :: rest => g :: shift_starts overlap g rest
  end.

(** Modelled from the spec: the chunker's [split_text] (the code is
    langchain's). *)
Definition split_text (size overlap : nat) (seps : list text) (t : text) : list text :=
  with_overlap overlap (merge_greedy size [] (split_segments size seps t)).

(** Modelled from the spec: the chunker's constructor (the code is
    langchain's).  It fails with [InvalidChunkConfig] if the overlap is
    at least the chunk size; otherwise it gives the splitting function
    of the configuration. *)
Definition RecursiveCharacterTextSplitter
    (chunk_size chunk_overlap : Z) (separators : list text)
  : result (text -> list text) :=
  if (chunk_size <=? chunk_overlap)%Z
  then Raise (InvalidChunkConfig (str "chunk overlap must be smaller than chunk size"))
  else Return (split_text (Z.to_nat chunk_size) (Z.to_nat chunk_overlap) separators).

End Chunker.

(** ** [app/services/pdf_processor.py] *)

Module PdfProcessor.
Import PyStr Py.

(** The fields [__init__] sets.  [text_splitter] is the splitter
    object, used only through [create_documents([all_text])]: the
    contents of the chunks it makes of one text. *)
Record PDFProcessor : Type := {
  chunk_size : Z;
  chunk_overlap : Z;
  separators : list text;
  text_splitter : text -> list text;
}.

(** [PDFProcessor.__init__].  [splitter_class] is the imported splitter
    class; its constructor may raise. *)
Definition init (splitter_class : Z -> Z -> list text -> result (text -> list text))
    (size overlap : Z) (seps : list text) : result PDFProcessor :=
  splitter ← splitter_class size overlap seps;
  Return {| chunk_size := size; chunk_overlap := overlap;
            separators := seps; text_splitter := splitter |}.

Definition default_separators : list text := [[10; 10]; [10]; [32]; []].

(** A PDF file as the libraries read it: what [PDFDocument(parser)]
    gives (the entries of [doc.info[0]], each key decoded when it can
    be and each [bytes] value decoded, and the number of pages of the
    page table), and what [PyPDFLoader(path).load()] gives (the text of
    each page).  Both may raise. *)
Record PdfFile : Type := {
  file_name : text;
  file_size : Z;
  pdf_document : result (list (option text * pyval) * nat);
  loaded_pages : result (list text);
}.

Record ChunkPosition : Type := {
  index : Z;
  total_chunks : Z;
}.

Record ChunkProcessingInfo : Type := {
  chunk_method : text;
  cp_chunk_size : Z;
  cp_chunk_overlap : Z;
}.

Record ChunkMetadata : Type := {
  cm_chunk_id : text;
  page_number : Z;
  cm_word_count : Z;
  cm_char_count : Z;
  chunk_position : ChunkPosition;
  cm_people_mentioned : list text;
  chunk_size_bytes : Z;
  overlap_with_next : Z;
  cm_processing_info : ChunkProcessingInfo;
}.

Record Chunk : Type := {
  content : text;
  chunk_metadata : ChunkMetadata;
  chunk_id : text;
  word_count : Z;
  char_count : Z;
}.

Record DocumentInfo : Type := {
  total_pages : Z;
  filename : text;
  di_total_chunks : Z;
  file_size_bytes : pyval;
  created_date : pyval;
  modified_date : pyval;
}.

Record ProcessingInfo : Type := {
  pi_chunk_size : Z;
  pi_chunk_overlap : Z;
  processing_date : text;
  processor_version : text;
}.

(** The dictionary [process_pdf] returns, by its five keys. *)
Record ProcessingResult : Type := {
  metadata : gmap text pyval;
  chunks : list Chunk;
  document_info : DocumentInfo;
  people_mentioned : list text;
  processing_info : ProcessingInfo;
}.

(** [d[k]]. *)
Definition getitem (d : gmap text pyval) (k : text) : result pyval :=
  match d !! k with
  | Some v => Return v
  | None => Raise (KeyError k)
  end.

Definition zlen {A} (l : list A) : Z := Z.of_nat (length l).

Definition sum_Z (l : list Z) : Z := foldr Z.add 0%Z l.

Section Processor.

(** The interpreter's case mapping beyond ASCII, the named entities
    spaCy finds in a text (each with its label), and the successive
    readings of [datetime.now().isoformat()]. *)
Variable uni_lower : text -> text.
Variable ner_entities : text -> list (text * text).
Variable now_iso : nat -> text.

Definition py_lower : text -> text := lower uni_lower.

(** [extract_detailed_metadata]. *)
Definition extract_detailed_metadata (f : PdfFile) : result (gmap text pyval) :=
  doc ← pdf_document f;
  let md :=
    foldl (fun (m : gmap text pyval) (kv : option text * pyval) =>
             match kv.1 with
             | Some k => <[py_lower k := kv.2]> m
             | None => m
             end) ∅ doc.1 in
  Return (<[str "page_count" := PInt (Z.of_nat doc.2)]>
         (<[str "file_name" := PStr (file_name f)]>
         (<[str "file_size" := PInt (file_size f)]>
         (<[str "created_date" := default (PStr []) (md !! str "creationdate")]>
         (<[str "modified_date" := default (PStr []) (md !! str "moddate")]> md))))).

(** [extract_people_names]: the lower-cased texts of the entities
    labelled PERSON, as a set. *)
Definition extract_people_names (t : text) : gset text :=
  list_to_set
    (py_lower <$> (List.filter (fun e => bool_decide (e.2 = str "PERSON")) (ner_entities t)).*1).

(** One element of the [chunks] list comprehension. *)
Definition chunk_entry (self : PDFProcessor) (people : list text)
    (n_chunks n_pages i : Z) (page_content : text) : result Chunk :=
  per_page ← floordiv n_chunks n_pages;
  page ← floordiv i per_page;
  size_bytes ← utf8_len page_content;
  Return {|
    content := page_content;
    chunk_metadata := {|
      cm_chunk_id := str "chunk_" ++ str_of_int i;
      page_number := (page + 1)%Z;
      cm_word_count := Z.of_nat (count_words page_content);
      cm_char_count := zlen page_content;
      chunk_position := {| index := i; total_chunks := n_chunks |};
      cm_people_mentioned :=
        List.filter (fun name => contains (py_lower name) (py_lower page_content)) people;
      chunk_size_bytes := Z.of_nat size_bytes;
      overlap_with_next := if (i <? n_chunks - 1)%Z then chunk_overlap self else 0%Z;
      cm_processing_info := {|
        chunk_method := str "recursive_character";
        cp_chunk_size := chunk_size self;
        cp_chunk_overlap := chunk_overlap self |} |};
    chunk_id := str "chunk_" ++ str_of_int i;
    word_count := Z.of_nat (count_words page_content);
    char_count := zlen page_content |}.

(** The comprehension over [enumerate(chunks)], from index [i] on. *)
Fixpoint chunk_entries (self : PDFProcessor) (people : list text)
    (n_chunks n_pages i : Z) (cs : list text) : result (list Chunk) :=
  match cs with
  | [] => Return []
  | c :: rest =>
      e ← chunk_entry self people n_chunks n_pages i c;
      es ← chunk_entries self people n_chunks n_pages (i + 1)%Z rest;
      Return (e :: es)
  end.

(** The [try] block of [process_pdf]. *)
Definition process_pdf_try (self : PDFProcessor) (fs : gmap text PdfFile)
    (pdf_path : text) : result ProcessingResult :=
  match fs !! pdf_path with
  | None => Raise (FileNotFoundError (str "PDF file not found: " ++ pdf_path))
  | Some f =>
      md ← extract_detailed_metadata f;
      pages ← loaded_pages f;
      let all_text := join [10] pages in
      let cs := text_splitter self all_text in
      let people := extract_people_names all_text in
      fsize ← getitem md (str "file_size");
      let info := {|
        total_pages := zlen pages;
        filename := file_name f;
        di_total_chunks := zlen cs;
        file_size_bytes := fsize;
        created_date := default (PStr []) (md !! str "created_date");
        modified_date := default (PStr []) (md !! str "modified_date") |} in
      let words := sum_Z ((fun c => Z.of_nat (count_words c)) <$> cs) in
      let chars := sum_Z (zlen <$> cs) in
      average_chunk_size ← truediv chars (zlen cs);
      fsize' ← getitem md (str "file_size");
      avg_words_per_chunk ← truediv words (zlen cs);
      entries ← chunk_entries self (elements people) (zlen cs) (zlen pages) 0 cs;
      Return {|
        metadata :=
          <[str "document_statistics" :=
              PDict [(str "pages", PInt (zlen pages));
                     (str "chunks", PInt (zlen cs));
                     (str "file_size_bytes", fsize');
                     (str "avg_words_per_chunk", PFloat avg_words_per_chunk)]]>
         (<[str "total_people_mentioned" := PInt (Z.of_nat (size people))]>
         (<[str "processing_timestamp" := PStr (now_iso 0)]>
         (<[str "language_detected" := PStr (str "en")]>
         (<[str "average_chunk_size" := PFloat average_chunk_size]>
         (<[str "total_char_count" := PInt chars]>
         (<[str "total_word_count" := PInt words]> md))))));
        chunks := entries;
        document_info := info;
        people_mentioned := elements people;
        processing_info := {|
          pi_chunk_size := chunk_size self;
          pi_chunk_overlap := chunk_overlap self;
          processing_date := now_iso 1;
          processor_version := str "1.0.0" |} |}
  end.

(** The [except] clauses of [process_pdf]: [FileNotFoundError] is
    raised again; any other exception whose message names a missing
    EOF marker or a syntax error becomes a [ValueError], and the rest
    are raised again. *)
Definition process_pdf_except (e : exn) : exn :=
  match e with
  | FileNotFoundError _ => e
  | _ =>
      if contains (str "EOF marker not found") (exn_str e)
         || contains (str "syntax error") (py_lower (exn_str e))
      then ValueError (str "Invalid or corrupted PDF file: " ++ exn_str e)
      else e
  end.

(** [process_pdf]. *)
Definition process_pdf (self : PDFProcessor) (fs : gmap text PdfFile)
    (pdf_path : text) : result ProcessingResult :=
  match process_pdf_try self fs pdf_path with
  | Return r => Return r
  | Raise e => Raise (process_pdf_except e)
  end.

End Processor.

(** *** [save_to_json] *)

Definition required_keys : list text :=
  [str "metadata"; str "chunks"; str "document_info";
   str "people_mentioned"; str "processing_info"].

(** The directories and the files of the file system. *)
Record FileSystem : Type := {
  directories : gset text;
  files : gmap text text;
}.

Section SaveToJson.

(** The values of the dictionary to save; what [json.dump] writes for
    it, the whole document or, when a value cannot be serialized, the
    part written before the error; the directory of a path with its
    ancestors; and the errors the operating system gives for making a
    directory and for opening a file to write. *)
Variable V : Type.
Variable json_dump : gmap text V -> text + text * exn.
Variable parent_chain : text -> list text.
Variable mkdir_error : FileSystem -> text -> option exn.
Variable open_error : FileSystem -> text -> option exn.

(** [all(key in data for key in required_keys)]. *)
Definition has_required_keys (data : gmap text V) : bool :=
  forallb (fun key => bool_decide (is_Some (data !! key))) required_keys.

Definition write_file (fs : FileSystem) (path body : text) : FileSystem :=
  {| directories := directories fs; files := <[path := body]> (files fs) |}.

(** [output_path.parent.mkdir(parents=True, exist_ok=True)], when it
    succeeds. *)
Definition make_parents (fs : FileSystem) (output_path : text) : FileSystem :=
  {| directories := directories fs ∪ list_to_set (parent_chain output_path);
     files := files fs |}.

(** [save_to_json]: the file system after the call, and its outcome.
    Both [except] clauses log the exception and raise it again. *)
Definition save_to_json (data : gmap text V) (output_path : text) (fs : FileSystem)
  : FileSystem * result unit :=
  match mkdir_error fs output_path with
  | Some e => (fs, Raise e)
  | None =>
      let fs1 := make_parents fs output_path in
      if negb (has_required_keys data)
      then (fs1, Raise (ValueError (str "Invalid data structure: missing required keys")))
      else
        match open_error fs1 output_path with
        | Some e => (fs1, Raise e)
        | None =>
            match json_dump data with
            | inl doc => (write_file fs1 output_path doc, Return tt)
            | inr (part, e) => (write_file fs1 output_path part, Raise e)
            end
        end
  end.

End SaveToJson.

End PdfProcessor.

(** ** [app/utils/text_processing.py]: headers, mentions, metadata *)

Module TextMetadata.
Import PyStr Py.

(** The class [[ivxlcdm]]. *)
Definition is_roman (c : N) : bool := existsb (N.eqb c) (str "ivxlcdm").

(** [\s+] and then a character of the class [p], from the start of the
    text: one or more whitespace characters, the next character in
    [p].  The run may stop before a whitespace character that is in
    [p], as the backtracking of [\s+] allows. *)
Fixpoint spaces_then (p : N -> bool) (t : text) : bool :=
  match t with
  | c :: tl =>
      is_space c
      && (match tl with d :: _ => p d | [] => false end || spaces_then p tl)
  | [] => false
  end.

(** [re.match] of [^chapter\s+C+] for a character class [C]: the
    text starts with [chapter], whitespace and one character of the
    class. *)
Definition match_chapter (p : N -> bool) (t : text) : bool :=
  starts_with (str "chapter") t && spaces_then p (drop 7 t).

(** The twelve names [extract_character_mentions] looks for. *)
Definition main_characters : list text :=
  [str "Harry"; str "Potter"; str "Ron"; str "Weasley";
   str "Hermione"; str "Granger"; str "Draco"; str "Malfoy";
   str "Dumbledore"; str "Snape"; str "McGonagall"; str "Hagrid"].

(** [text.split('\n')[0]]: the text up to its first newline. *)
Definition first_line (t : text) : text :=
  take (span_len (fun c => negb (c =? 10)) t) t.

(** The dictionary [extract_metadata] returns, by its keys. *)
Record TextInfo : Type := {
  ti_page_number : Z;
  is_chapter_start : bool;
  character_mentions : list text;
}.

Section Tables.

(** The interpreter's case mapping and its decimal digits beyond
    ASCII. *)
Variable uni_lower : text -> text.
Variable uni_digit : N -> bool.

(** The class [\d] of a [str] pattern. *)
Definition is_digit (c : N) : bool :=
  if c <? 128 then in_range 48 57 c else uni_digit c.

(** [is_chapter_header]. *)
Definition is_chapter_header (t : text) : bool :=
  let t := strip (lower uni_lower t) in
  match_chapter is_digit t || match_chapter is_roman t.

(** [extract_character_mentions]: the names found, through a set. *)
Definition extract_character_mentions (t : text) : list text :=
  elements
    (list_to_set (C := gset text)
       (List.filter (fun character => contains (lower uni_lower character) (lower uni_lower t))
          main_characters)).

(** [extract_metadata]. *)
Definition extract_metadata (t : text) (page_num : Z) : TextInfo :=
  {| ti_page_number := page_num;
     is_chapter_start := is_chapter_header (first_line t);
     character_mentions := extract_character_mentions t |}.

End Tables.

End TextMetadata.

(** ** [app/services/vector_store.py] *)

Module VectorStore.
Import PyStr Py.

(** A langchain [Document]. *)
Record Document : Type := {
  page_content : text;
  doc_metadata : gmap text pyval;
}.

(** One dictionary of the [vectors] list. *)
Record Vector : Type := {
  vec_id : text;
  vec_text : text;
  vec_metadata : gmap text pyval;
}.

(** The dictionary [upsert_documents] returns. *)
Record UpsertStatus : Type := {
  us_status : text;
  documents_processed : Z;
}.

(** The body of the loop over [enumerate(documents)]. *)
Definition make_vector (i : nat) (doc : Document) : Vector :=
  {| vec_id := str "doc_" ++ str_of_int (Z.of_nat i);
     vec_text := page_content doc;
     vec_metadata := <[str "chunk_id" := PInt (Z.of_nat i)]> (doc_metadata doc) |}.

Definition make_vectors (documents : list Document) : list Vector :=
  imap make_vector documents.

Definition batch_size : nat := 100.

(** [range(0, n, batch_size)]. *)
Definition batch_starts (n : nat) : list nat :=
  (fun k => k * batch_size)%nat <$> seq 0 ((n + (batch_size - 1)) / batch_size)%nat.

Section Index.

(** The Pinecone index: whether [pc.Index(name)] raises, and whether
    [index.upsert] raises on a batch. *)
Variable open_index : option exn.
Variable index_upsert : list Vector -> option exn.

(** The loop over the batches.  [sent] are the batches [index.upsert]
    has accepted; an exception is printed and raised again, which ends
    the loop. *)
Fixpoint upsert_loop (vectors : list Vector) (starts : list nat)
    (sent : list (list Vector)) : list (list Vector) * result unit :=
  match starts with
  | [] => (sent, Return tt)
  | i :: rest =>
      let batch := take batch_size (drop i vectors) in
      match index_upsert batch with
      | Some e => (sent, Raise e)
      | None => upsert_loop vectors rest (sent ++ [batch])
      end
  end.

(** [upsert_documents]: the batches the index accepted, and the
    outcome. *)
Definition upsert_documents (documents : list Document)
  : list (list Vector) * result UpsertStatus :=
  match open_index with
  | Some e => ([], Raise e)
  | None =>
      let vectors := make_vectors documents in
      match upsert_loop vectors (batch_starts (length vectors)) [] with
      | (sent, Raise e) => (sent, Raise e)
      | (sent, Return _) =>
          (sent, Return {| us_status := str "success";
                           documents_processed := Z.of_nat (length documents) |})
      end
  end.

End Index.

End VectorStore.

(** ** [app/api/routes/document.py] *)

Module DocumentRoutes.
Import PyStr Py PdfProcessor VectorStore.

(** [app/models/document.py]. *)
Inductive ProcessingStatus : Type := PENDING | PROCESSING | COMPLETED | FAILED.

Record ProcessingResponse : Type := {
  pr_status : ProcessingStatus;
  pr_documents_processed : option Z;
  pr_message : option text;
}.

Record HTTPException : Type := {
  status_code : Z;
  detail : text;
}.

(** What [await] is given: the coroutine that a call of an [async def]
    function returns, or an object of another type. *)
Inductive awaited (A : Type) : Type :=
  | Coroutine (body : result A)
  | Object (type_name : text).
Arguments Coroutine {A} body.
Arguments Object {A} type_name.

(** [await x]: a coroutine is run; any other object is a type error. *)
Definition await {A} (x : awaited A) : result A :=
  match x with
  | Coroutine body => body
  | Object type_name =>
      Raise (TypeError (str "object " ++ type_name ++ str " can't be used in 'await' expression"))
  end.

Section Routes.

Variable uni_lower : text -> text.
Variable ner_entities : text -> list (text * text).
Variable now_iso : nat -> text.
Variable open_index : option exn.
Variable index_upsert : list Vector -> option exn.
(** [format(status)] of the string enumeration, in an f-string. *)
Variable format_status : ProcessingStatus -> text.

(** [process_document]: the status dictionary and the batches the index
    accepted after the call, and the outcome.  [process_pdf] is a plain
    method, so [await] is given the dictionary it returns;
    [upsert_documents] is an [async def]. *)
Definition process_document (file_path doc_id : text) (pdf_processor : PDFProcessor)
    (fs : gmap text PdfFile) (processing_status : gmap text ProcessingStatus)
  : gmap text ProcessingStatus * list (list Vector) * result unit :=
  let st := <[doc_id := PROCESSING]> processing_status in
  match
    (d ← process_pdf uni_lower ner_entities now_iso pdf_processor fs file_path;
     await (A := list Document) (Object (str "dict")))
  with
  | Raise e => (<[doc_id := FAILED]> st, [], Raise e)
  | Return chunks =>
      match upsert_documents open_index index_upsert chunks with
      | (sent, Raise e) => (<[doc_id := FAILED]> st, sent, Raise e)
      | (sent, Return _) => (<[doc_id := COMPLETED]> st, sent, Return tt)
      end
  end.

(** [get_processing_status]. *)
Definition get_processing_status (processing_status : gmap text ProcessingStatus)
    (doc_id : text) : HTTPException + ProcessingResponse :=
  match processing_status !! doc_id with
  | None => inl {| status_code := 404; detail := str "Document not found" |}
  | Some status =>
      inr {| pr_status := status;
             pr_documents_processed := None;
             pr_message := Some (str "Document processing " ++ format_status status) |}
  end.

End Routes.

End DocumentRoutes.

(** ** Predicates of the properties *)

Module Props.
Import PyStr Py TextProcessing.

(** Every whitespace character of the text is one ASCII space, with no
    whitespace right after it. *)
Fixpoint single_spaced (t : text) : bool :=
  match t with
  | [] => true
  | c :: tl =>
      (negb (is_space c)
       || (c =? 32) && match tl with d :: _ => negb (is_space d) | [] => true end)
      && single_spaced tl
  end.

(** A whitespace character is the ASCII space. *)
Definition plain_space (c : N) : Prop := is_space c = true -> c = 32.

(** The text has no newline and no form feed. *)
Definition no_line_breaks (t : text) : Prop :=
  Forall (fun c => c <> 10 /\ c <> 12) t.

(** No whitespace at the start or at the end of the text. *)
Definition trimmed (t : text) : bool :=
  Nat.eqb (span_len is_space t) 0 && Nat.eqb (span_len is_space (reverse t)) 0.

(** Some position of the text has a lower-case letter, a hyphen, a
    space and a lower-case letter in a row. *)
Fixpoint has_hyphen_space_break (t : text) : bool :=
  match t with
  | [] => false
  | _ :: tl => bool_decide (is_Some (match_hyphen_space t)) || has_hyphen_space_break tl
  end.

(** The page number in the specification's words:
    [floor(index / (total_chunks / total_pages)) + 1], clamped to the
    total page count; the quotients are exact. *)
Definition spec_page_number (i n_chunks n_pages : Z) : Z :=
  Z.min (Qfloor (inject_Z i / (inject_Z n_chunks / inject_Z n_pages)) + 1) n_pages.

(** The name of an exception's class. *)
Definition exn_class (e : exn) : text :=
  match e with
  | FileNotFoundError _ => str "FileNotFoundError"
  | ZeroDivisionError _ => str "ZeroDivisionError"
  | ValueError _ => str "ValueError"
  | KeyError _ => str "KeyError"
  | UnicodeEncodeError _ => str "UnicodeEncodeError"
  | OSError _ => str "OSError"
  | TypeError _ => str "TypeError"
  | InvalidChunkConfig _ => str "InvalidChunkConfig"
  | OtherError _ => str "Exception"
  end.

End Props.

(** ** Sample documents and processors *)

Module Examples.
Import PyStr Py PdfProcessor.

(** A splitter that cuts the text at its line breaks. *)
Fixpoint lines_from (cur : text) (t : text) : list text :=
  match t with
  | [] => match cur with [] => [] | _ => [reverse cur] end
  | c :: tl =>
      if c =? 10 then reverse cur :: lines_from [] tl
      else lines_from (c :: cur) tl
  end.
Definition lines : text -> list text := lines_from [].

(** A splitter for texts that fit one chunk. *)
Definition whole_text (t : text) : list text :=
  match t with [] => [] | _ => [t] end.

Definition line_processor : PDFProcessor :=
  {| chunk_size := 7; chunk_overlap := 0;
     separators := default_separators; text_splitter := lines |}.

Definition one_chunk_processor : PDFProcessor :=
  {| chunk_size := 50; chunk_overlap := 49;
     separators := default_separators; text_splitter := whole_text |}.

Definition book (pages : list text) : PdfFile :=
  {| file_name := str "book.pdf"; file_size := 4096;
     pdf_document := Return ([(Some (str "Author"), PStr (str "J. K. Rowling"))],
                             length pages);
     loaded_pages := Return pages |}.

Definition shelf (pages : list text) : gmap text PdfFile :=
  {[ str "book.pdf" := book pages ]}.

(** An interpreter that leaves non-ASCII text as it is, a model that
    finds no entity, and a stopped clock. *)
Definition keep_case : text -> text := fun t => t.
Definition no_entities : text -> list (text * text) := fun _ => [].
Definition noon : nat -> text := fun _ => str "2024-05-01T12:00:00".

(** [process_pdf] on the sample file. *)
Definition run (self : PDFProcessor) (pages : list text) : result ProcessingResult :=
  process_pdf keep_case no_entities noon self (shelf pages) (str "book.pdf").

(** Two pages of three lines in all, and two pages of two lines each. *)
Definition three_lines : list text :=
  [str "one"; str "twoo" ++ [10] ++ str "three"].
Definition four_lines : list text :=
  [str "a" ++ [10] ++ str "b"; str "c" ++ [10] ++ str "d"].

Definition page_numbers (r : ProcessingResult) : list Z :=
  (fun c => page_number (chunk_metadata c)) <$> chunks r.

End Examples.

(** * Properties *)

Import PyStr Py TextProcessing Chunker PdfProcessor Props Examples.

(** ** The substitution scan *)

Section ReSub.

Variable m : text -> option (text * nat).

Lemma re_sub_from_drop (k : nat) (t : text) :
  re_sub_from m k t = re_sub m (drop k t).
Proof.
  revert k. induction t as [|c tl IH]; intros [|k]; simpl; try reflexivity.
  apply IH.
Qed.

Lemma re_sub_cons (c : N) (tl : text) :
  re_sub m (c :: tl) =
  match m (c :: tl) with
  | Some (repl, n) => repl ++ re_sub m (drop (pred n) tl)
  | None => c :: re_sub m tl
  end.
Proof.
  unfold re_sub at 1. simpl.
  destruct (m (c :: tl)) as [[repl n]|]; [|reflexivity].
  by rewrite re_sub_from_drop.
Qed.

(** Where the pattern matches at no position, the text is unchanged. *)
Lemma re_sub_no_match (t : text) :
  (forall k, m (drop k t) = None) -> re_sub m t = t.
Proof.
  induction t as [|c tl IH]; intros H; [reflexivity|].
  rewrite re_sub_cons. pose proof (H O) as H0. simpl in H0. rewrite H0. f_equal.
  apply IH. intros k. apply (H (S k)).
Qed.

End ReSub.

(** ** The text normalizer *)

Section Normalizer.

Variable ua : N -> bool.

Lemma span_len_le (p : N -> bool) (t : text) : (span_len p t <= length t)%nat.
Proof. induction t as [|c tl IH]; simpl; [lia|]. destruct (p c); simpl; lia. Qed.

Lemma span_len_drop (p : N -> bool) (t : text) :
  match drop (span_len p t) t with
  | c :: _ => p c = false
  | [] => True
  end.
Proof.
  induction t as [|c tl IH]; simpl; [done|].
  destruct (p c) eqn:E; simpl; [exact IH | exact E].
Qed.

Lemma collapse_whitespace_cons (c : N) (tl : text) :
  collapse_whitespace (c :: tl) =
  if is_space c then 32 :: collapse_whitespace (drop (span_len is_space tl) tl)
  else c :: collapse_whitespace tl.
Proof.
  unfold collapse_whitespace. rewrite re_sub_cons.
  unfold match_spaces. simpl. destruct (is_space c); reflexivity.
Qed.

Lemma collapse_whitespace_head (t : text) :
  match t with
  | c :: _ => is_space c = false -> head (collapse_whitespace t) = Some c
  | [] => True
  end.
Proof.
  destruct t as [|c tl]; [done|]. intros H.
  rewrite collapse_whitespace_cons, H. reflexivity.
Qed.

Lemma single_spaced_cons (c : N) (tl : text) :
  single_spaced (c :: tl) =
  (negb (is_space c)
   || (c =? 32) && match tl with d :: _ => negb (is_space d) | [] => true end)
  && single_spaced tl.
Proof. reflexivity. Qed.

Lemma collapse_whitespace_single_spaced_len (n : nat) (t : text) :
  (length t <= n)%nat -> single_spaced (collapse_whitespace t) = true.
Proof.
  revert t. induction n as [|n IH]; intros [|c tl] Hl; simpl in Hl; try lia; try reflexivity.
  rewrite collapse_whitespace_cons. destruct (is_space c) eqn:Ec.
  - rewrite single_spaced_cons.
    pose proof (span_len_le is_space tl) as Hs.
    pose proof (span_len_drop is_space tl) as Hd.
    rewrite IH by (rewrite length_drop; lia).
    pose proof (collapse_whitespace_head (drop (span_len is_space tl) tl)) as Hh.
    destruct (drop (span_len is_space tl) tl) as [|d rest] eqn:Ed.
    + reflexivity.
    + specialize (Hh Hd). destruct (collapse_whitespace (d :: rest)) as [|d' r'];
        simpl in Hh; [discriminate|]. injection Hh as ->.
      rewrite Hd. reflexivity.
  - rewrite single_spaced_cons, Ec. simpl. apply IH. lia.
Qed.

Lemma collapse_whitespace_single_spaced (t : text) :
  single_spaced (collapse_whitespace t) = true.
Proof. by apply (collapse_whitespace_single_spaced_len (length t)). Qed.

(** Whitespace is not a lower-case letter, and the characters the later
    rules look for are whitespace other than the space. *)
Lemma is_space_bounds (c : N) : is_space c = true -> c <= 32 \/ 133 <= c.
Proof.
  unfold is_space, in_range.
  rewrite !orb_true_iff, !andb_true_iff, !N.leb_le, !N.eqb_eq. lia.
Qed.

Lemma lower_az_not_space (c : N) : is_lower_az c = true -> is_space c = false.
Proof.
  unfold is_lower_az, in_range. rewrite andb_true_iff, !N.leb_le. intros [H1 H2].
  destruct (is_space c) eqn:E; [|reflexivity].
  apply is_space_bounds in E. lia.
Qed.

Lemma single_spaced_plain (t : text) :
  single_spaced t = true -> Forall plain_space t.
Proof.
  induction t as [|c tl IH]; [constructor|].
  rewrite single_spaced_cons, andb_true_iff, orb_true_iff, andb_true_iff.
  intros [Hc Htl]. constructor; [|by apply IH].
  intros Hs. destruct Hc as [Hc|[Hc _]].
  - rewrite Hs in Hc. discriminate.
  - by apply N.eqb_eq.
Qed.

Lemma single_spaced_tail (c : N) (tl : text) :
  single_spaced (c :: tl) = true -> single_spaced tl = true.
Proof. rewrite single_spaced_cons, andb_true_iff. tauto. Qed.

Lemma single_spaced_drop (k : nat) (t : text) :
  single_spaced t = true -> single_spaced (drop k t) = true.
Proof.
  revert t. induction k as [|k IH]; intros [|c tl] H; simpl; try done.
  apply IH. by apply single_spaced_tail in H.
Qed.

Lemma single_spaced_take (k : nat) (t : text) :
  single_spaced t = true -> single_spaced (take k t) = true.
Proof.
  revert t. induction k as [|k IH]; intros [|c tl] H; try done.
  change (take (S k) (c :: tl)) with (c :: take k tl).
  pose proof (single_spaced_tail _ _ H) as Htl.
  rewrite single_spaced_cons in H. rewrite single_spaced_cons, (IH _ Htl), andb_true_r.
  apply andb_true_iff in H as [H _].
  destruct (negb (is_space c)); [reflexivity|]. simpl in *.
  destruct (c =? 32); [|discriminate]. simpl in *.
  destruct tl as [|d tl']; destruct k; simpl; done.
Qed.

Lemma plain_no_line_breaks (t : text) :
  Forall plain_space t -> no_line_breaks t.
Proof.
  intros Hp. eapply Forall_impl; [exact Hp|]. intros c H.
  split; intros ->; by specialize (H eq_refl).
Qed.

Lemma no_line_breaks_drop (k : nat) (t : text) :
  no_line_breaks t -> no_line_breaks (drop k t).
Proof. apply Forall_drop. Qed.

Lemma match_hyphen_newline_none (t : text) :
  no_line_breaks t -> match_hyphen_newline ua t = None.
Proof.
  intros H. unfold match_hyphen_newline.
  destruct (span_len (is_word ua) t) as [|n] eqn:En; [reflexivity|].
  pose proof (no_line_breaks_drop (S n) t H) as Hd.
  destruct (drop (S n) t) as [|h [|nl t2]]; try reflexivity.
  destruct (nl =? 10) eqn:Enl; [|by rewrite andb_false_r].
  apply N.eqb_eq in Enl. subst nl.
  apply Forall_cons in Hd as [_ Hd]. apply Forall_cons in Hd as [[Hd _] _]. done.
Qed.

Lemma match_form_feed_none (t : text) :
  no_line_breaks t -> match_form_feed t = None.
Proof.
  intros H. destruct t as [|c tl]; [reflexivity|]. simpl.
  apply Forall_cons in H as [[_ H] _].
  by apply N.eqb_neq in H as ->.
Qed.

Lemma match_blank_lines_none (t : text) :
  no_line_breaks t -> match_blank_lines t = None.
Proof.
  intros H. destruct t as [|c tl]; [reflexivity|]. simpl.
  apply Forall_cons in H as [[H _] _].
  by apply N.eqb_neq in H as ->.
Qed.

(** The hyphen-space rule, case by case. *)
Lemma join_hyphen_space_cons (a : N) (tl : text) :
  (exists b rest, tl = 45 :: 32 :: b :: rest /\ is_lower_az a = true /\
     is_lower_az b = true /\
     join_hyphen_space (a :: tl) = a :: b :: join_hyphen_space rest)
  \/ (match_hyphen_space (a :: tl) = None /\
      join_hyphen_space (a :: tl) = a :: join_hyphen_space tl).
Proof.
  unfold join_hyphen_space. rewrite re_sub_cons.
  destruct tl as [|h [|s [|b rest]]]; try (right; split; reflexivity).
  simpl.
  destruct (is_lower_az a) eqn:Ea; [|right; split; reflexivity].
  destruct (h =? 45) eqn:Eh; [|right; split; reflexivity].
  destruct (s =? 32) eqn:Es; [|right; split; reflexivity].
  destruct (is_lower_az b) eqn:Eb; [|right; split; reflexivity].
  apply N.eqb_eq in Eh, Es. subst. left. exists b, rest. simpl. done.
Qed.

Lemma join_hyphen_space_keeps_len (n : nat) (t : text) :
  (length t <= n)%nat -> single_spaced t = true ->
  single_spaced (join_hyphen_space t) = true /\
  head (join_hyphen_space t) = head t.
Proof.
  revert t. induction n as [|n IH]; intros [|a tl] Hl Hs; simpl in Hl; try lia; try done.
  destruct (join_hyphen_space_cons a tl) as [(b & rest & -> & Ha & Hb & ->)|[_ ->]].
  - split; [|reflexivity]. simpl in Hl.
    assert (single_spaced rest = true) as Hr by (by apply (single_spaced_drop 4) in Hs).
    destruct (IH rest ltac:(lia) Hr) as [IH1 _].
    rewrite !single_spaced_cons, IH1.
    by rewrite (lower_az_not_space _ Ha), (lower_az_not_space _ Hb).
  - split; [|reflexivity].
    destruct (IH tl ltac:(lia) (single_spaced_tail _ _ Hs)) as [IH1 IH2].
    rewrite single_spaced_cons in Hs. rewrite single_spaced_cons, IH1, andb_true_r.
    apply andb_true_iff in Hs as [Hs _].
    destruct (join_hyphen_space tl) as [|d' r']; destruct tl as [|d r];
      simpl in IH2; try discriminate; try done.
    by injection IH2 as ->.
Qed.

Lemma join_hyphen_space_single_spaced (t : text) :
  single_spaced t = true -> single_spaced (join_hyphen_space t) = true.
Proof. intros H. by apply (join_hyphen_space_keeps_len (length t)). Qed.

(** [strip] cuts the text at both ends. *)
Lemma rstrip_take (t : text) :
  rstrip t = take (length t - span_len is_space (reverse t)) t.
Proof.
  unfold rstrip, lstrip. by rewrite drop_reverse, reverse_involutive.
Qed.

Lemma span_len_lstrip (t : text) : span_len is_space (lstrip t) = O.
Proof.
  unfold lstrip. pose proof (span_len_drop is_space t) as H.
  destruct (drop (span_len is_space t) t) as [|c tl]; [reflexivity|].
  simpl. by rewrite H.
Qed.

Lemma span_len_take_zero (k : nat) (t : text) :
  span_len is_space t = O -> span_len is_space (take k t) = O.
Proof.
  destruct t as [|c tl]; destruct k; simpl; try done.
  destruct (is_space c); done.
Qed.

Lemma strip_trimmed (t : text) : trimmed (strip t) = true.
Proof.
  unfold trimmed, strip. apply andb_true_iff. split; apply Nat.eqb_eq.
  - rewrite rstrip_take. apply span_len_take_zero, span_len_lstrip.
  - unfold rstrip. rewrite reverse_involutive. apply span_len_lstrip.
Qed.

Lemma strip_single_spaced (t : text) :
  single_spaced t = true -> single_spaced (strip t) = true.
Proof.
  intros H. unfold strip. rewrite rstrip_take.
  apply single_spaced_take. unfold lstrip. by apply single_spaced_drop.
Qed.

(** A trimmed text is its own [strip]. *)
Lemma strip_id (t : text) : trimmed t = true -> strip t = t.
Proof.
  unfold trimmed. rewrite andb_true_iff, !Nat.eqb_eq. intros [H1 H2].
  unfold strip. rewrite rstrip_take. unfold lstrip. rewrite H1, drop_0.
  rewrite H2, Nat.sub_0_r. apply firstn_all.
Qed.

(** The steps of [clean_text] after the first, on a text whose
    whitespace is single spaces: only the hyphen-space rule acts. *)
Lemma later_rules_single_spaced (t : text) :
  single_spaced t = true ->
  join_hyphen_newline ua t = t /\
  replace_form_feeds (join_hyphen_space t) = join_hyphen_space t /\
  collapse_blank_lines (join_hyphen_space t) = join_hyphen_space t.
Proof.
  intros H.
  pose proof (plain_no_line_breaks _ (single_spaced_plain _ H)) as Hn.
  pose proof (plain_no_line_breaks _
    (single_spaced_plain _ (join_hyphen_space_single_spaced _ H))) as Hn'.
  repeat split; apply re_sub_no_match; intros k.
  - by apply match_hyphen_newline_none, no_line_breaks_drop.
  - by apply match_form_feed_none, no_line_breaks_drop.
  - by apply match_blank_lines_none, no_line_breaks_drop.
Qed.

Lemma clean_text_eq (t : text) :
  clean_text ua t = strip (join_hyphen_space (collapse_whitespace t)).
Proof.
  unfold clean_text.
  destruct (later_rules_single_spaced _ (collapse_whitespace_single_spaced t))
    as (-> & -> & ->).
  reflexivity.
Qed.

(** A text whose whitespace is single spaces is left as it is by the
    first rule. *)
Lemma collapse_whitespace_id (t : text) :
  single_spaced t = true -> collapse_whitespace t = t.
Proof.
  induction t as [|c tl IH]; [reflexivity|]. intros H.
  rewrite collapse_whitespace_cons.
  pose proof (IH (single_spaced_tail _ _ H)) as IH'.
  rewrite single_spaced_cons in H. apply andb_true_iff in H as [H _].
  destruct (is_space c) eqn:Ec; [|by rewrite IH'].
  simpl in H. apply andb_true_iff in H as [Hc Hd]. apply N.eqb_eq in Hc as ->.
  destruct tl as [|d r]; [reflexivity|].
  apply negb_true_iff in Hd. simpl. rewrite Hd. simpl. by rewrite IH'.
Qed.

Lemma no_break_no_match (t : text) :
  has_hyphen_space_break t = false ->
  forall k, match_hyphen_space (drop k t) = None.
Proof.
  induction t as [|c tl IH]; intros H k.
  - by destruct k.
  - simpl in H. apply orb_false_iff in H as [H1 H2].
    destruct k as [|k]; [|by apply IH].
    rewrite drop_0. apply bool_decide_eq_false in H1.
    destruct (match_hyphen_space (c :: tl)) eqn:E; [|reflexivity].
    exfalso. apply H1. by eexists.
Qed.

Lemma clean_text_whitespace_shape (t : text) :
  single_spaced (clean_text ua t) = true /\ trimmed (clean_text ua t) = true.
Proof.
  rewrite clean_text_eq. split; [|apply strip_trimmed].
  apply strip_single_spaced, join_hyphen_space_single_spaced,
    collapse_whitespace_single_spaced.
Qed.

(** C10: the output of the normalizer has no newline, tab, carriage
    return or form feed.  The first rule leaves single spaces as the
    only whitespace, so the hyphen-linebreak rule, the form-feed rule
    and the blank-line rule match at no position of the text they are
    applied to; every whitespace character of the output is one ASCII
    space, and the output neither starts nor ends with whitespace. *)
Theorem clean_text_whitespace_normal (t : text) :
  let t1 := collapse_whitespace t in
  let t3 := join_hyphen_space (join_hyphen_newline ua t1) in
  let t4 := replace_form_feeds t3 in
  let out := clean_text ua t in
  Forall (fun c => c <> 10 /\ c <> 9 /\ c <> 13 /\ c <> 12) out
  /\ single_spaced t1 = true
  /\ (forall k, match_hyphen_newline ua (drop k t1) = None)
  /\ (forall k, match_form_feed (drop k t3) = None)
  /\ (forall k, match_blank_lines (drop k t4) = None)
  /\ single_spaced out = true
  /\ trimmed out = true.
Proof.
  intros t1 t3 t4 out.
  pose proof (collapse_whitespace_single_spaced t) as H1. fold t1 in H1.
  destruct (later_rules_single_spaced _ H1) as (E2 & E4 & _).
  assert (t3 = join_hyphen_space t1) as E3 by (unfold t3; by rewrite E2).
  assert (t4 = t3) as E4' by (unfold t4; by rewrite E3).
  pose proof (join_hyphen_space_single_spaced _ H1) as H3. rewrite <- E3 in H3.
  pose proof (plain_no_line_breaks _ (single_spaced_plain _ H1)) as N1.
  pose proof (plain_no_line_breaks _ (single_spaced_plain _ H3)) as N3.
  assert (out = strip t3) as Eo by (unfold out; by rewrite clean_text_eq, E3).
  assert (single_spaced out = true) as Ho by (rewrite Eo; by apply strip_single_spaced).
  split; [|split; [exact H1|split; [|split; [|split; [|split]]]]].
  - eapply Forall_impl; [exact (single_spaced_plain _ Ho)|].
    intros c Hc. repeat split; intros ->; by specialize (Hc eq_refl).
  - intros k. by apply match_hyphen_newline_none, no_line_breaks_drop.
  - intros k. by apply match_form_feed_none, no_line_breaks_drop.
  - intros k. rewrite E4'. by apply match_blank_lines_none, no_line_breaks_drop.
  - exact Ho.
  - rewrite Eo. apply strip_trimmed.
Qed.

(** The hyphen-space rule never lengthens a text, and shortens one that
    has a break. *)
Lemma join_hyphen_space_length_len (n : nat) (t : text) :
  (length t <= n)%nat ->
  (length (join_hyphen_space t) <= length t)%nat
  /\ (has_hyphen_space_break t = true ->
      (length (join_hyphen_space t) < length t)%nat).
Proof.
  revert t. induction n as [|n IH]; intros [|a tl] Hl; simpl in Hl; try lia;
    try (split; [simpl; lia | discriminate]).
  destruct (join_hyphen_space_cons a tl) as [(b & rest & -> & _ & _ & ->)|[Hm ->]].
  - simpl in Hl. destruct (IH rest ltac:(lia)) as [IH1 _]. simpl. split; lia.
  - destruct (IH tl ltac:(lia)) as [IH1 IH2]. split; [simpl; lia|].
    intros Hb.
    change (bool_decide (is_Some (match_hyphen_space (a :: tl)))
            || has_hyphen_space_break tl = true) in Hb.
    rewrite Hm, bool_decide_eq_false_2 in Hb by (by intros [? ?]).
    specialize (IH2 Hb). simpl. lia.
Qed.

Lemma strip_length (t : text) : (length (strip t) <= length t)%nat.
Proof.
  unfold strip. rewrite rstrip_take. unfold lstrip.
  rewrite length_take, !length_drop. lia.
Qed.

(** C4, as amended: applying the normalizer to its own output returns
    that output unchanged exactly when the output has no lower-case
    letter, hyphen, space, lower-case letter in a row. *)
Theorem clean_text_idempotent_without_breaks (t : text) :
  clean_text ua (clean_text ua t) = clean_text ua t
  <-> has_hyphen_space_break (clean_text ua t) = false.
Proof.
  destruct (clean_text_whitespace_shape t) as [Hs Ht].
  assert (clean_text ua (clean_text ua t)
          = strip (join_hyphen_space (clean_text ua t))) as E.
  { rewrite clean_text_eq at 1. by rewrite (collapse_whitespace_id _ Hs). }
  split.
  - intros Hid. destruct (has_hyphen_space_break (clean_text ua t)) eqn:Hb;
      [exfalso|reflexivity].
    destruct (join_hyphen_space_length_len _ (clean_text ua t) (le_n _)) as [_ Hlt].
    specialize (Hlt Hb).
    pose proof (strip_length (join_hyphen_space (clean_text ua t))) as Hle.
    rewrite <- E, Hid in Hle. lia.
  - intros Hb. rewrite E. unfold join_hyphen_space.
    rewrite (re_sub_no_match _ _ (no_break_no_match _ Hb)).
    by apply strip_id.
Qed.

End Normalizer.

(** C4: the normalizer is not idempotent.  On [a- b- c] the hyphen-space
    rule joins the first break only, since the letter that ends one
    match cannot start the next; the second pass joins the other. *)
Lemma clean_text_not_idempotent :
  (forall ua, clean_text ua (str "a- b- c") = str "ab- c")
  /\ (forall ua, clean_text ua (clean_text ua (str "a- b- c")) = str "abc")
  /\ str "abc" <> str "ab- c".
Proof. repeat split; try (intros ua; vm_compute; reflexivity). discriminate. Qed.

Lemma clean_text_idempotent_without_breaks_witness :
  has_hyphen_space_break (clean_text (fun _ => false) (str "  over- flow   text ")) = false
  /\ clean_text (fun _ => false) (clean_text (fun _ => false) (str "  over- flow   text "))
     = clean_text (fun _ => false) (str "  over- flow   text ").
Proof.
  split; [vm_compute; reflexivity|].
  apply (proj2 (clean_text_idempotent_without_breaks (fun _ => false)
                  (str "  over- flow   text "))).
  vm_compute. reflexivity.
Defined.

(** C8: a word split by a hyphen and a line break is not rejoined when
    its letters are upper case: the first rule has turned the line
    break into a space before the hyphen-linebreak rule runs, and the
    hyphen-space rule joins lower-case letters only. *)
Theorem hyphen_newline_upper_case_not_joined (ua : N -> bool) :
  clean_text ua (str "WORD-" ++ [10] ++ str "BREAK") = str "WORD- BREAK".
Proof. vm_compute. reflexivity. Qed.

(** ** Results *)

Lemma bind_Return {A B} (f : A -> result B) (m : result A) (b : B) :
  m ≫= f = Return b -> exists a, m = Return a /\ f a = Return b.
Proof. destruct m as [a|e]; simpl; [eauto | discriminate]. Qed.

Lemma bind_Raise {A B} (f : A -> result B) (e : exn) : Raise e ≫= f = Raise e.
Proof. reflexivity. Qed.

Lemma bind_Return_l {A B} (f : A -> result B) (a : A) : Return a ≫= f = f a.
Proof. reflexivity. Qed.

Lemma floordiv_Return (a b q : Z) :
  floordiv a b = Return q -> b <> 0%Z /\ q = (a / b)%Z.
Proof.
  unfold floordiv. destruct (b =? 0)%Z eqn:E; [discriminate|].
  apply Z.eqb_neq in E. by intros [= <-].
Qed.

Lemma floordiv_nonzero (a b : Z) : b <> 0%Z -> floordiv a b = Return (a / b)%Z.
Proof. intros H. unfold floordiv. by apply Z.eqb_neq in H as ->. Qed.

Lemma truediv_nonzero (a b : Z) :
  b <> 0%Z -> truediv a b = Return (inject_Z a / inject_Z b)%Q.
Proof. intros H. unfold truediv. by apply Z.eqb_neq in H as ->. Qed.

Lemma truediv_Return (a b : Z) (q : Q) : truediv a b = Return q -> b <> 0%Z.
Proof.
  unfold truediv. destruct (b =? 0)%Z eqn:E; [discriminate|].
  by apply Z.eqb_neq in E.
Qed.

(** ** [process_pdf] *)

Section ProcessorProps.

Variable uni_lower : text -> text.
Variable ner_entities : text -> list (text * text).
Variable now_iso : nat -> text.

Local Abbreviation process := (process_pdf uni_lower ner_entities now_iso).
Local Abbreviation entry := (chunk_entry uni_lower).
Local Abbreviation entries := (chunk_entries uni_lower).

(** What a chunk record holds, when the comprehension's body returns. *)
Lemma chunk_entry_Return (self : PDFProcessor) (people : list text)
    (n p i : Z) (c : text) (e : Chunk) :
  entry self people n p i c = Return e ->
  p <> 0%Z /\ (n / p)%Z <> 0%Z
  /\ content e = c
  /\ page_number (chunk_metadata e) = (i / (n / p) + 1)%Z
  /\ index (chunk_position (chunk_metadata e)) = i
  /\ total_chunks (chunk_position (chunk_metadata e)) = n
  /\ overlap_with_next (chunk_metadata e)
     = (if (i <? n - 1)%Z then chunk_overlap self else 0%Z).
Proof.
  unfold chunk_entry. intros H.
  apply bind_Return in H as (q & Hq & H). apply floordiv_Return in Hq as [Hp ->].
  apply bind_Return in H as (d & Hd & H). apply floordiv_Return in Hd as [Hq ->].
  apply bind_Return in H as (sz & _ & H). injection H as <-. simpl. done.
Qed.

(** The comprehension keeps the order of the chunks: its [k]-th record
    is the body at index [i + k] on the [k]-th chunk. *)
Lemma chunk_entries_Return (self : PDFProcessor) (people : list text)
    (n p : Z) (cs : list text) :
  forall (i : Z) (es : list Chunk),
  entries self people n p i cs = Return es ->
  length es = length cs
  /\ forall (k : nat) (e : Chunk), es !! k = Some e ->
       exists c, cs !! k = Some c
                 /\ entry self people n p (i + Z.of_nat k) c = Return e.
Proof.
  induction cs as [|c rest IH]; intros i es H; simpl in H.
  - injection H as <-. split; [reflexivity|]. intros k e Hk. by destruct k.
  - apply bind_Return in H as (e0 & He0 & H).
    apply bind_Return in H as (es0 & Hes0 & H). injection H as <-.
    destruct (IH _ _ Hes0) as [Hl Hk]. split; [simpl; by rewrite Hl|].
    intros [|k] e Hlk; simpl in Hlk.
    + injection Hlk as <-. exists c. by rewrite Z.add_0_r.
    + destruct (Hk k e Hlk) as (c' & Hc' & He). exists c'. split; [exact Hc'|].
      by replace (i + Z.of_nat (S k))%Z with (i + 1 + Z.of_nat k)%Z by lia.
Qed.

(** A successful call: the file exists and loads, the splitter gave
    at least one chunk, and the records come from the comprehension
    over its chunks. *)
Lemma process_pdf_Return (self : PDFProcessor) (fs : gmap text PdfFile)
    (path : text) (r : ProcessingResult) :
  process self fs path = Return r ->
  exists (f : PdfFile) (pages : list text),
    fs !! path = Some f
    /\ loaded_pages f = Return pages
    /\ text_splitter self (join [10] pages) <> []
    /\ entries self (people_mentioned r)
         (zlen (text_splitter self (join [10] pages))) (zlen pages) 0
         (text_splitter self (join [10] pages)) = Return (chunks r)
    /\ total_pages (document_info r) = zlen pages
    /\ di_total_chunks (document_info r) = zlen (text_splitter self (join [10] pages)).
Proof.
  unfold process_pdf. destruct (process_pdf_try _ _ _ _ _ _) as [r'|e] eqn:E; [|discriminate].
  intros [= ->]. unfold process_pdf_try in E.
  destruct (fs !! path) as [f|]; [|discriminate].
  apply bind_Return in E as (md & _ & E).
  apply bind_Return in E as (pages & Hp & E).
  apply bind_Return in E as (fsize & _ & E).
  apply bind_Return in E as (avg & Havg & E).
  apply bind_Return in E as (fsize' & _ & E).
  apply bind_Return in E as (avgw & _ & E).
  apply bind_Return in E as (es & Hes & E).
  injection E as <-. simpl.
  exists f, pages. repeat split; try done.
  apply truediv_Return in Havg. intros Hnil. rewrite Hnil in Havg. by apply Havg.
Qed.

Lemma extract_detailed_metadata_file_size (f : PdfFile) (md : gmap text pyval) :
  extract_detailed_metadata uni_lower f = Return md ->
  getitem md (str "file_size") = Return (PInt (file_size f)).
Proof.
  unfold extract_detailed_metadata, getitem. intros H.
  apply bind_Return in H as (doc & _ & H). injection H as <-.
  rewrite !lookup_insert_ne by (intros E; vm_compute in E; discriminate).
  by rewrite lookup_insert_eq.
Qed.

Lemma extract_detailed_metadata_Return (f : PdfFile) :
  succeeded (pdf_document f) = true ->
  exists md, extract_detailed_metadata uni_lower f = Return md.
Proof.
  unfold extract_detailed_metadata.
  destruct (pdf_document f) as [doc|e]; [|discriminate]. intros _.
  rewrite bind_Return_l. eauto.
Qed.

(** The division errors pass the [except] clauses as they are. *)
Lemma process_pdf_except_division (msg : text) :
  msg = str "division by zero" \/ msg = str "integer division or modulo by zero" ->
  process_pdf_except uni_lower (ZeroDivisionError msg) = ZeroDivisionError msg.
Proof. intros [-> | ->]; vm_compute; reflexivity. Qed.

(** The chunk number [i] of a successful call. *)
Lemma process_pdf_chunk (self : PDFProcessor) (fs : gmap text PdfFile)
    (path : text) (r : ProcessingResult) (i : nat) (c : Chunk) :
  process self fs path = Return r ->
  chunks r !! i = Some c ->
  exists people page_content,
    entry self people (zlen (chunks r)) (total_pages (document_info r))
      (Z.of_nat i) page_content = Return c.
Proof.
  intros H Hi.
  apply process_pdf_Return in H as (f & pages & _ & _ & _ & He & -> & _).
  apply chunk_entries_Return in He as [Hl Hk].
  destruct (Hk i c Hi) as (pc & _ & Hc).
  exists (people_mentioned r), pc. unfold zlen at 1. by rewrite Hl.
Qed.

End ProcessorProps.

(** ** The page number *)

Lemma Qfloor_div_pos (a b : Z) :
  (0 < b)%Z -> Qfloor (inject_Z a / inject_Z b) = (a / b)%Z.
Proof.
  intros Hb. destruct b as [|pb|pb]; try lia.
  unfold Qdiv, Qinv, Qmult, inject_Z, Qfloor. simpl.
  by rewrite Z.mul_1_r.
Qed.

(** Where the page count divides the chunk count, the code's page
    number is the specification's. *)
Lemma spec_page_number_divides (i n p : Z) :
  (0 <= i < n)%Z -> (0 < p)%Z -> (p | n)%Z ->
  spec_page_number i n p = (i / (n / p) + 1)%Z.
Proof.
  intros Hi Hp [k ->]. unfold spec_page_number.
  rewrite Z.div_mul by lia.
  assert (0 < k)%Z as Hk by nia.
  assert (inject_Z (k * p) / inject_Z p == inject_Z k)%Q as ->.
  { rewrite inject_Z_mult. field. intros E.
    apply (inject_Z_injective p 0) in E. lia. }
  rewrite Qfloor_div_pos by done.
  apply Z.min_l.
  assert (i / k < p)%Z; [|lia].
  apply Z.div_lt_upper_bound; lia.
Qed.

Section ProcessorClaims.

Variable uni_lower : text -> text.
Variable ner_entities : text -> list (text * text).
Variable now_iso : nat -> text.

Local Abbreviation process := (process_pdf uni_lower ner_entities now_iso).
Local Abbreviation entry := (chunk_entry uni_lower).

(** C2, as amended: for every processed document and every chunk index
    [i], the [page_number] field is [i // (total_chunks // total_pages)
    + 1], both quotients integer floor divisions; where the page count
    divides the chunk count this is
    [floor(i / (total_chunks / total_pages)) + 1] and does not exceed
    the page count. *)
Theorem page_number_floor_quotients (self : PDFProcessor)
    (fs : gmap text PdfFile) (path : text) (r : ProcessingResult)
    (i : nat) (c : Chunk) :
  process self fs path = Return r ->
  chunks r !! i = Some c ->
  let n := zlen (chunks r) in
  let p := total_pages (document_info r) in
  page_number (chunk_metadata c) = (Z.of_nat i / (n / p) + 1)%Z
  /\ ((p | n)%Z ->
      page_number (chunk_metadata c) = spec_page_number (Z.of_nat i) n p
      /\ (page_number (chunk_metadata c) <= p)%Z).
Proof.
  intros H Hi n p.
  pose proof (lookup_lt_Some _ _ _ Hi) as Hlt.
  destruct (process_pdf_chunk _ _ _ _ _ _ _ _ _ H Hi) as (people & pc & He).
  apply process_pdf_Return in H as (f & pages & _ & _ & _ & _ & Hp & _).
  apply chunk_entry_Return in He as (Hp0 & _ & _ & Hpn & _).
  fold n p in Hpn, Hp0. split; [exact Hpn|]. intros Hd.
  assert (0 < p)%Z as Hpos by (unfold p in *; rewrite Hp in *; unfold zlen in *; lia).
  assert (0 <= Z.of_nat i < n)%Z as Hin by (unfold n, zlen; lia).
  rewrite Hpn, spec_page_number_divides by done. split; [reflexivity|].
  rewrite <- (spec_page_number_divides _ _ _ Hin Hpos Hd).
  unfold spec_page_number. lia.
Qed.

(** C5, as amended: if the splitter yields no chunk for a file that
    exists and that the PDF libraries read, [process_pdf] raises
    [ZeroDivisionError], from the division of the total character count
    by the chunk count; a result it returns has at least one chunk. *)
Theorem no_chunks_raises (self : PDFProcessor) (fs : gmap text PdfFile) (path : text) :
  (forall f pages,
     fs !! path = Some f ->
     succeeded (pdf_document f) = true ->
     loaded_pages f = Return pages ->
     text_splitter self (join [10] pages) = [] ->
     process self fs path = Raise (ZeroDivisionError (str "division by zero")))
  /\ (forall r, process self fs path = Return r -> chunks r <> []).
Proof.
  split.
  - intros f pages Hf Hd Hp Hc.
    destruct (extract_detailed_metadata_Return uni_lower f Hd) as [md Hmd].
    unfold process_pdf, process_pdf_try.
    rewrite Hf, Hmd, bind_Return_l, Hp, bind_Return_l, Hc.
    rewrite (extract_detailed_metadata_file_size _ _ _ Hmd), bind_Return_l.
    reflexivity.
  - intros r H Hnil.
    apply process_pdf_Return in H as (f & pages & _ & _ & Hne & He & _).
    apply chunk_entries_Return in He as [Hl _]. rewrite Hnil in Hl.
    destruct (text_splitter self (join [10] pages)); [done | discriminate].
Qed.

(** C6: in a processed document the [overlap_with_next] field of every
    chunk but the last is the configured overlap, and that of the last
    chunk is 0; so the only chunk of a one-chunk document has 0. *)
Theorem overlap_with_next_field (self : PDFProcessor)
    (fs : gmap text PdfFile) (path : text) (r : ProcessingResult) :
  process self fs path = Return r ->
  (forall i c, chunks r !! i = Some c ->
     overlap_with_next (chunk_metadata c)
     = if decide (i + 1 < length (chunks r))%nat then chunk_overlap self else 0%Z)
  /\ (forall c, chunks r = [c] -> overlap_with_next (chunk_metadata c) = 0%Z).
Proof.
  intros H.
  assert (forall i c, chunks r !! i = Some c ->
     overlap_with_next (chunk_metadata c)
     = if decide (i + 1 < length (chunks r))%nat then chunk_overlap self else 0%Z) as Hall.
  { intros i c Hi.
    destruct (process_pdf_chunk _ _ _ _ _ _ _ _ _ H Hi) as (people & pc & He).
    apply chunk_entry_Return in He as (_ & _ & _ & _ & _ & _ & ->).
    unfold zlen. case_decide; [rewrite (proj2 (Z.ltb_lt _ _)) | rewrite (proj2 (Z.ltb_ge _ _))];
      (reflexivity || lia). }
  split; [exact Hall|].
  intros c Hc. rewrite (Hall O c) by (by rewrite Hc). by rewrite Hc.
Qed.

(** C9: when the splitter yields fewer chunks than the document has
    pages, and at least one, the quotient [total_chunks // total_pages]
    is 0, the page number of a chunk divides by it, and [process_pdf]
    raises instead of returning a result. *)
Theorem fewer_chunks_than_pages_raises (self : PDFProcessor)
    (fs : gmap text PdfFile) (path : text) (f : PdfFile) (pages : list text) :
  fs !! path = Some f ->
  loaded_pages f = Return pages ->
  (0 < length (text_splitter self (join [10%N] pages)) < length pages)%nat ->
  let n := zlen (text_splitter self (join [10] pages)) in
  (n / zlen pages = 0)%Z
  /\ (forall people i c,
        entry self people n (zlen pages) i c
        = Raise (ZeroDivisionError (str "integer division or modulo by zero")))
  /\ succeeded (process self fs path) = false
  /\ (succeeded (pdf_document f) = true ->
      process self fs path
      = Raise (ZeroDivisionError (str "integer division or modulo by zero"))).
Proof.
  intros Hf Hp Hlen n.
  assert (n / zlen pages = 0)%Z as Hq by (apply Z.div_small; unfold n, zlen; lia).
  assert (forall people i c,
        entry self people n (zlen pages) i c
        = Raise (ZeroDivisionError (str "integer division or modulo by zero"))) as He.
  { intros people i c. unfold chunk_entry.
    rewrite (floordiv_nonzero n) by (unfold zlen; lia).
    rewrite bind_Return_l, Hq. reflexivity. }
  assert (succeeded (pdf_document f) = true ->
      process self fs path
      = Raise (ZeroDivisionError (str "integer division or modulo by zero"))) as Hr.
  { intros Hd.
    destruct (extract_detailed_metadata_Return uni_lower f Hd) as [md Hmd].
    unfold process_pdf, process_pdf_try.
    rewrite Hf, Hmd, bind_Return_l, Hp, bind_Return_l.
    rewrite (extract_detailed_metadata_file_size _ _ _ Hmd), !bind_Return_l.
    fold n. rewrite !truediv_nonzero, !bind_Return_l by (unfold n, zlen; lia).
    destruct (text_splitter self (join [10] pages)) as [|c0 rest] eqn:Ecs;
      [simpl in Hlen; lia|].
    simpl chunk_entries. rewrite He, bind_Raise. reflexivity. }
  repeat split; try done.
  destruct (pdf_document f) as [doc|e] eqn:Ed.
  - by rewrite Hr.
  - unfold process_pdf, process_pdf_try, extract_detailed_metadata.
    by rewrite Hf, Ed.
Qed.

End ProcessorClaims.

(** C2: on three chunks over two pages the last chunk gets page 3,
    where the specification's formula gives 2, the page count. *)
Lemma page_number_exceeds_page_count :
  exists r,
    run line_processor three_lines = Return r
    /\ page_numbers r = [1; 2; 3]%Z
    /\ total_pages (document_info r) = 2%Z
    /\ spec_page_number 2 (zlen (chunks r)) (total_pages (document_info r)) = 2%Z.
Proof. eexists. split; [vm_compute; reflexivity|]. vm_compute. done. Qed.

Lemma page_number_floor_quotients_witness :
  exists r c,
    run line_processor four_lines = Return r
    /\ chunks r !! 3%nat = Some c
    /\ (total_pages (document_info r) | zlen (chunks r))%Z
    /\ page_number (chunk_metadata c)
       = (Z.of_nat 3 / (zlen (chunks r) / total_pages (document_info r)) + 1)%Z
    /\ page_number (chunk_metadata c)
       = spec_page_number (Z.of_nat 3) (zlen (chunks r)) (total_pages (document_info r))
    /\ (page_number (chunk_metadata c) <= total_pages (document_info r))%Z.
Proof.
  eexists. eexists. split; [vm_compute; reflexivity|]. split; [reflexivity|].
  split; [by exists 2%Z|].
  match goal with
  | |- page_number (chunk_metadata ?c) = _ /\ _ = spec_page_number _ (zlen (chunks ?r)) _ /\ _ =>
      pose proof (page_number_floor_quotients keep_case no_entities noon line_processor
                    (shelf four_lines) (str "book.pdf") r 3%nat c) as H
  end.
  specialize (H ltac:(vm_compute; reflexivity) eq_refl).
  destruct H as [H1 H2]. split; [exact H1|]. apply H2. by exists 2%Z.
Defined.

Lemma no_chunks_raises_witness :
  run line_processor [] = Raise (ZeroDivisionError (str "division by zero")).
Proof.
  unfold run.
  apply (proj1 (no_chunks_raises keep_case no_entities noon line_processor (shelf [])
                  (str "book.pdf"))
           (book []) []); vm_compute; reflexivity.
Defined.

(** C5: the code has no error of its own for an empty document.  On a
    document with no chunk the call raises [ZeroDivisionError], the
    class it also raises on a document of two pages and one chunk. *)
Lemma empty_document_raises_zero_division :
  (exists e, run line_processor [] = Raise e
             /\ exn_class e = str "ZeroDivisionError")
  /\ (exists e, run one_chunk_processor [str "first page"; str "second page"] = Raise e
                /\ exn_class e = str "ZeroDivisionError")
  /\ str "ZeroDivisionError" <> str "EmptyDocument".
Proof.
  split; [|split].
  - eexists. split; [vm_compute; reflexivity | reflexivity].
  - eexists. split; [vm_compute; reflexivity | reflexivity].
  - discriminate.
Qed.

Lemma overlap_with_next_field_witness :
  exists r c,
    run one_chunk_processor [replicate 50 97] = Return r
    /\ chunks r = [c]
    /\ overlap_with_next (chunk_metadata c) = 0%Z.
Proof.
  eexists. eexists. split; [vm_compute; reflexivity|]. split; [reflexivity|].
  refine (proj2 (overlap_with_next_field keep_case no_entities noon one_chunk_processor
                   (shelf [replicate 50 97]) (str "book.pdf") _ _) _ _);
    [vm_compute; reflexivity | reflexivity].
Defined.

Lemma fewer_chunks_than_pages_raises_witness :
  run one_chunk_processor [str "first page"; str "second page"]
  = Raise (ZeroDivisionError (str "integer division or modulo by zero")).
Proof.
  refine (proj2 (proj2 (proj2 (fewer_chunks_than_pages_raises keep_case no_entities noon
    one_chunk_processor (shelf _) (str "book.pdf") (book _) _ _ _ _))) _);
    try reflexivity.
  vm_compute. lia.
Defined.

(** ** The chunker *)

Section ChunkerBounds.

Variable size overlap : nat.

Local Abbreviation fits := (fun p : text => (length p <= size)%nat).

Lemma hard_cut_fuel_fits (fuel : nat) (t : text) :
  Forall fits (hard_cut_fuel fuel size t).
Proof.
  revert t. induction fuel as [|fuel IH]; intros [|c tl]; simpl; try constructor.
  - pose proof (length_take (c :: tl) size) as H. destruct size; simpl in *; lia.
  - apply IH.
Qed.

Lemma split_segments_fits (seps : list text) (t : text) :
  Forall fits (split_segments size seps t).
Proof.
  revert t. induction seps as [|sep rest IH]; intros t; simpl.
  - apply hard_cut_fuel_fits.
  - destruct (contains sep t); [|apply IH].
    apply Forall_bind, Forall_forall. intros seg _. simpl.
    destruct (length seg <=? size)%nat eqn:E; [|apply IH].
    apply Nat.leb_le in E. by repeat constructor.
Qed.

Lemma merge_greedy_fits (segs : list text) :
  forall cur, (length cur <= size)%nat -> Forall fits segs ->
  Forall fits (merge_greedy size cur segs).
Proof.
  induction segs as [|s rest IH]; intros cur Hc Hs; simpl.
  - destruct cur; by repeat constructor.
  - apply Forall_cons in Hs as [Hs Hr].
    destruct cur as [|x cur']; [by apply IH|].
    destruct (length (x :: cur') + length s <=? size)%nat eqn:E.
    + apply Nat.leb_le in E. apply IH; [|done]. by rewrite length_app.
    + constructor; [done|]. by apply IH.
Qed.

Lemma step_overlap_le (prev : text) : (step_overlap overlap prev <= overlap)%nat.
Proof.
  unfold step_overlap. destruct (length prev <=? overlap)%nat eqn:E; [|lia].
  apply Nat.leb_le in E. lia.
Qed.

Lemma shift_starts_bound (merged : list text) :
  forall prev, Forall fits merged ->
  Forall (fun c : text => (length c <= size + overlap)%nat)
    (shift_starts overlap prev merged).
Proof.
  induction merged as [|g rest IH]; intros prev H; simpl; [constructor|].
  apply Forall_cons in H as [Hg Hr]. constructor; [|by apply IH].
  pose proof (step_overlap_le prev). rewrite length_app, length_drop. lia.
Qed.

(** Every chunk the chunker makes has at most [size + overlap]
    characters. *)
Lemma split_text_bound (seps : list text) (t : text) :
  Forall (fun c : text => (length c <= size + overlap)%nat)
    (split_text size overlap seps t).
Proof.
  unfold split_text, with_overlap.
  pose proof (merge_greedy_fits (split_segments size seps t) [] ltac:(simpl; lia)
                (split_segments_fits seps t)) as H.
  destruct (merge_greedy size [] (split_segments size seps t)) as [|g rest];
    [constructor|].
  apply Forall_cons in H as [Hg Hr]. constructor; [lia|].
  by apply shift_starts_bound.
Qed.

End ChunkerBounds.

Lemma init_Return (splitter_class : Z -> Z -> list text -> result (text -> list text))
    (size overlap : Z) (seps : list text) (self : PDFProcessor) :
  init splitter_class size overlap seps = Return self ->
  splitter_class size overlap seps = Return (text_splitter self)
  /\ chunk_size self = size /\ chunk_overlap self = overlap /\ separators self = seps.
Proof.
  unfold init. intros H. apply bind_Return in H as (sp & Hsp & H).
  by injection H as <-.
Qed.

Section ChunkerClaims.

Variable uni_lower : text -> text.
Variable ner_entities : text -> list (text * text).
Variable now_iso : nat -> text.

Local Abbreviation process := (process_pdf uni_lower ner_entities now_iso).

(** C1: for a configuration with [0 <= overlap < chunk_size] and every
    document, every chunk of the result but the last has at most
    [chunk_size + chunk_overlap] characters, and the index recorded in
    the chunk at position [i] is [i]: the indices start at 0 and go up
    by one. *)
Theorem chunk_lengths_and_indices (size overlap : Z) (seps : list text)
    (self : PDFProcessor) (fs : gmap text PdfFile) (path : text)
    (r : ProcessingResult) :
  (0 <= overlap < size)%Z ->
  init RecursiveCharacterTextSplitter size overlap seps = Return self ->
  process self fs path = Return r ->
  (forall i c, chunks r !! i = Some c -> (i + 1 < length (chunks r))%nat ->
     (zlen (content c) <= size + overlap)%Z)
  /\ (forall i c, chunks r !! i = Some c ->
        index (chunk_position (chunk_metadata c)) = Z.of_nat i).
Proof.
  intros Hcfg Hinit H.
  apply init_Return in Hinit as (Hsp & _).
  unfold RecursiveCharacterTextSplitter in Hsp.
  destruct (size <=? overlap)%Z; [discriminate|]. injection Hsp as Hsp.
  apply process_pdf_Return in H as (f & pages & _ & _ & _ & He & _).
  apply chunk_entries_Return in He as [_ Hk].
  split; intros i c Hi; [intros _|]; destruct (Hk i c Hi) as (pc & Hpc & Hc);
    apply chunk_entry_Return in Hc as (_ & _ & Hcontent & _ & Hindex & _).
  - rewrite Hcontent. rewrite <- Hsp in Hpc.
    pose proof (split_text_bound (Z.to_nat size) (Z.to_nat overlap) seps
                  (join [10] pages)) as Hb.
    rewrite Forall_lookup in Hb. specialize (Hb i pc Hpc). simpl in Hb.
    unfold zlen. lia.
  - rewrite Hindex. lia.
Qed.

End ChunkerClaims.

Lemma chunk_lengths_and_indices_witness :
  exists self r,
    init RecursiveCharacterTextSplitter 5 2 default_separators = Return self
    /\ run self [str "Hello world."; str "second page here"] = Return r
    /\ length (chunks r) = 6%nat
    /\ (forall i c, chunks r !! i = Some c -> (i + 1 < length (chunks r))%nat ->
          (zlen (content c) <= 5 + 2)%Z)
    /\ (forall i c, chunks r !! i = Some c ->
          index (chunk_position (chunk_metadata c)) = Z.of_nat i).
Proof.
  eexists. eexists. split; [reflexivity|]. split; [vm_compute; reflexivity|].
  split; [reflexivity|].
  refine (chunk_lengths_and_indices keep_case no_entities noon 5 2 default_separators
            _ (shelf [str "Hello world."; str "second page here"]) (str "book.pdf")
            _ _ _ _); [lia | reflexivity | vm_compute; reflexivity].
Defined.

(** ** [save_to_json] *)

Section SaveToJsonClaims.

Variable V : Type.
Variable json_dump : gmap text V -> text + text * exn.
Variable parent_chain : text -> list text.
Variable mkdir_error : FileSystem -> text -> option exn.
Variable open_error : FileSystem -> text -> option exn.

Local Abbreviation save :=
  (save_to_json V json_dump parent_chain mkdir_error open_error).

Lemma has_required_keys_spec (data : gmap text V) :
  has_required_keys V data = true <->
  forall key, key ∈ required_keys -> is_Some (data !! key).
Proof.
  unfold has_required_keys. rewrite forallb_forall. split; intros H key Hk.
  - apply list_elem_of_In, H in Hk. by apply bool_decide_eq_true in Hk.
  - apply bool_decide_eq_true, H. by apply list_elem_of_In.
Qed.

(** C7: [save_to_json] fails and writes no file for every dictionary
    that lacks one of the five required keys; a dictionary with all
    five passes the check, and is written when the directory can be
    made, the file opened and the data serialized. *)
Theorem save_to_json_required_keys (data : gmap text V) (output_path : text)
    (fs : FileSystem) :
  (forall key, key ∈ required_keys -> data !! key = None ->
     succeeded (save data output_path fs).2 = false
     /\ files (save data output_path fs).1 = files fs)
  /\ ((forall key, key ∈ required_keys -> is_Some (data !! key)) ->
      has_required_keys V data = true
      /\ (forall doc,
            mkdir_error fs output_path = None ->
            open_error (make_parents parent_chain fs output_path) output_path = None ->
            json_dump data = inl doc ->
            save data output_path fs
            = (write_file (make_parents parent_chain fs output_path) output_path doc,
               Return tt))).
Proof.
  split.
  - intros key Hk Hnone.
    assert (has_required_keys V data = false) as Hv.
    { destruct (has_required_keys V data) eqn:E; [|reflexivity].
      pose proof (proj1 (has_required_keys_spec data) E key Hk) as [v Hv].
      rewrite Hnone in Hv. discriminate. }
    unfold save_to_json. destruct (mkdir_error fs output_path); [done|].
    by rewrite Hv.
  - intros Hall. pose proof (proj2 (has_required_keys_spec data) Hall) as Hv.
    split; [exact Hv|].
    intros doc Hm Ho Hj. unfold save_to_json. by rewrite Hm, Hv, Ho, Hj.
Qed.

End SaveToJsonClaims.

Lemma save_to_json_required_keys_witness :
  let data : gmap text unit := {[ str "metadata" := tt; str "chunks" := tt ]} in
  let fs := {| directories := ∅; files := {[ str "out.json" := str "{}" ]} |} in
  let saved := save_to_json unit (fun _ => inl (str "{}")) (fun _ => [])
                 (fun _ _ => None) (fun _ _ => None) data (str "out.json") fs in
  succeeded saved.2 = false /\ files saved.1 = files fs.
Proof.
  intros data fs saved.
  refine (proj1 (save_to_json_required_keys unit _ _ _ _ data (str "out.json") fs)
            (str "document_info") _ _).
  - vm_compute. set_solver.
  - vm_compute. reflexivity.
Defined.

(** * Further properties *)

(** ** The normalizer: fixed points, length, empty output *)

Section NormalizerMore.

Variable ua : N -> bool.

Lemma collapse_whitespace_length_len (n : nat) (t : text) :
  (length t <= n)%nat -> (length (collapse_whitespace t) <= length t)%nat.
Proof.
  revert t. induction n as [|n IH]; intros [|c tl] Hl; simpl in Hl; try lia;
    try (simpl; lia).
  rewrite collapse_whitespace_cons.
  pose proof (span_len_le is_space tl) as Hs.
  destruct (is_space c).
  - specialize (IH (drop (span_len is_space tl) tl)).
    rewrite length_drop in IH. simpl. specialize (IH ltac:(lia)). lia.
  - specialize (IH tl ltac:(lia)). simpl. lia.
Qed.

(** X1: the texts [clean_text] returns unchanged are exactly those whose
    whitespace is single spaces, that neither start nor end with
    whitespace, and that have no lower-case letter, hyphen, space,
    lower-case letter in a row. *)
Theorem clean_text_fixed_points (t : text) :
  clean_text ua t = t
  <-> single_spaced t = true /\ trimmed t = true
      /\ has_hyphen_space_break t = false.
Proof.
  split.
  - intros E. destruct (clean_text_whitespace_shape ua t) as [Hs Ht].
    rewrite E in Hs, Ht. repeat split; try done.
    destruct (has_hyphen_space_break t) eqn:Hb; [exfalso|reflexivity].
    destruct (join_hyphen_space_length_len _ t (le_n _)) as [_ Hlt].
    specialize (Hlt Hb).
    pose proof (strip_length (join_hyphen_space t)) as Hle.
    rewrite clean_text_eq, (collapse_whitespace_id ua _ Hs) in E.
    rewrite E in Hle. lia.
  - intros (Hs & Ht & Hb).
    rewrite clean_text_eq, (collapse_whitespace_id ua _ Hs).
    unfold join_hyphen_space.
    rewrite (re_sub_no_match _ _ (no_break_no_match _ Hb)).
    by apply strip_id.
Qed.

(** X2: [clean_text] never returns a text longer than its input. *)
Theorem clean_text_length (t : text) :
  (length (clean_text ua t) <= length t)%nat.
Proof.
  rewrite clean_text_eq.
  pose proof (strip_length (join_hyphen_space (collapse_whitespace t))).
  destruct (join_hyphen_space_length_len _ (collapse_whitespace t) (le_n _)) as [? _].
  pose proof (collapse_whitespace_length_len _ t (le_n _)). lia.
Qed.

Local Abbreviation visible := (Exists (fun c : N => is_space c = false)).

Lemma visible_drop_span (t : text) :
  visible t -> visible (drop (span_len is_space t) t).
Proof.
  induction t as [|c tl IH]; intros H; [done|]. simpl.
  destruct (is_space c) eqn:E; simpl; [|done].
  apply IH. apply Exists_cons in H as [H|H]; [congruence | done].
Qed.

Lemma visible_collapse_len (n : nat) (t : text) :
  (length t <= n)%nat -> visible t -> visible (collapse_whitespace t).
Proof.
  revert t. induction n as [|n IH]; intros [|c tl] Hl H; simpl in Hl; try lia;
    try (by apply Exists_nil in H).
  rewrite collapse_whitespace_cons.
  pose proof (span_len_le is_space tl) as Hs.
  apply Exists_cons in H. destruct (is_space c) eqn:E.
  - destruct H as [H|H]; [congruence|]. apply Exists_cons_tl, IH.
    + rewrite length_drop. lia.
    + by apply visible_drop_span.
  - by apply Exists_cons_hd.
Qed.

Lemma visible_join_len (n : nat) (t : text) :
  (length t <= n)%nat -> visible t -> visible (join_hyphen_space t).
Proof.
  revert t. induction n as [|n IH]; intros [|a tl] Hl H; simpl in Hl; try lia;
    try (by apply Exists_nil in H).
  destruct (join_hyphen_space_cons a tl) as [(b & rest & -> & Ha & _ & ->)|[_ ->]].
  - apply Exists_cons_hd. by apply lower_az_not_space.
  - apply Exists_cons in H as [H|H]; [by apply Exists_cons_hd|].
    apply Exists_cons_tl, IH; [lia | done].
Qed.

Lemma visible_lstrip (t : text) : visible t -> visible (lstrip t).
Proof. apply visible_drop_span. Qed.

Lemma visible_strip (t : text) : visible t -> visible (strip t).
Proof.
  intros H. unfold strip, rstrip.
  apply Exists_exists in H as (c & Hc & Hv).
  assert (forall u : text, visible u -> visible (reverse u)) as Hrev.
  { intros u Hu. apply Exists_exists in Hu as (x & Hx & Hvx).
    apply Exists_exists. exists x. split; [by apply elem_of_reverse | done]. }
  apply Hrev, visible_lstrip, Hrev, visible_lstrip.
  apply Exists_exists. eauto.
Qed.

Lemma span_len_all (t : text) :
  Forall (fun c => is_space c = true) t -> span_len is_space t = length t.
Proof.
  induction 1 as [|c tl Hc _ IH]; [reflexivity|]. simpl. by rewrite Hc, IH.
Qed.

(** X3: [clean_text] returns the empty string exactly for the inputs
    made of whitespace only (the empty input among them). *)
Theorem clean_text_empty (t : text) :
  clean_text ua t = [] <-> Forall (fun c => is_space c = true) t.
Proof.
  split.
  - intros E.
    destruct (decide (Forall (fun c => is_space c = true) t)) as [|Hn]; [done|].
    exfalso. apply not_Forall_Exists in Hn; [|solve_decision].
    assert (visible t) as Hv.
    { eapply Exists_impl; [exact Hn|]. simpl. intros c Hc.
      by destruct (is_space c). }
    pose proof (visible_strip _ (visible_join_len _ _ (le_n _)
                  (visible_collapse_len _ _ (le_n _) Hv))) as Ho.
    rewrite <- clean_text_eq with (ua := ua), E in Ho. by apply Exists_nil in Ho.
  - intros H. rewrite clean_text_eq. destruct H as [|c tl Hc Htl]; [reflexivity|].
    rewrite collapse_whitespace_cons, Hc, (span_len_all _ Htl), drop_all.
    reflexivity.
Qed.

End NormalizerMore.

(** ** Chapter headers and character mentions *)

Section TextMetadataProps.
Import TextMetadata.

Variable uni_lower : text -> text.
Variable uni_digit : N -> bool.

Lemma spaces_then_spec (p : N -> bool) (s : text) :
  spaces_then p s = true
  <-> exists ws c rest,
        s = ws ++ c :: rest /\ ws <> []
        /\ Forall (fun w => is_space w = true) ws /\ p c = true.
Proof.
  split.
  - induction s as [|c0 tl IH]; [discriminate|]. simpl.
    rewrite andb_true_iff, orb_true_iff. intros [Hc [Hd|Hr]].
    + destruct tl as [|d r]; [discriminate|].
      exists [c0], d, r. repeat split; try done. by repeat constructor.
    + destruct (IH Hr) as (ws & c & rest & -> & _ & Hws & Hp).
      exists (c0 :: ws), c, rest. repeat split; try done. by constructor.
  - intros (ws & c & rest & -> & Hne & Hws & Hp).
    induction Hws as [|w ws' Hw Hws' IH]; [done|].
    simpl. rewrite Hw. simpl. destruct ws' as [|w' ws'']; simpl.
    + by rewrite Hp.
    + apply orb_true_iff. right. by apply IH.
Qed.

Lemma starts_with_spec (b a : text) :
  starts_with b a = true <-> exists s, a = b ++ s.
Proof.
  revert a. induction b as [|x b IH]; intros a; simpl.
  - split; [intros _; by exists a | done].
  - destruct a as [|y a]; [split; [discriminate | by intros [s ?]]|].
    rewrite andb_true_iff, N.eqb_eq, IH. split.
    + intros [-> [s ->]]. by exists s.
    + intros [s [= -> ->]]. split; [done | by exists s].
Qed.

Lemma match_chapter_spec (p : N -> bool) (t : text) :
  match_chapter p t = true
  <-> exists ws c rest,
        t = str "chapter" ++ ws ++ c :: rest /\ ws <> []
        /\ Forall (fun w => is_space w = true) ws /\ p c = true.
Proof.
  unfold match_chapter. rewrite andb_true_iff, starts_with_spec, spaces_then_spec.
  split.
  - intros [[s ->] (ws & c & rest & Hs & Hr)].
    change (drop 7 (str "chapter" ++ s)) with s in Hs. subst s.
    by exists ws, c, rest.
  - intros (ws & c & rest & -> & Hr). split; [by eexists|].
    by exists ws, c, rest.
Qed.

(** X4: a line is a chapter header exactly when, lower-cased and
    stripped, it is the word [chapter], then one or more whitespace
    characters, then a decimal digit or one of the letters
    [i v x l c d m]; what follows that character is not looked at. *)
Theorem is_chapter_header_spec (t : text) :
  is_chapter_header uni_lower uni_digit t = true
  <-> exists ws c rest,
        strip (lower uni_lower t) = str "chapter" ++ ws ++ c :: rest
        /\ ws <> [] /\ Forall (fun w => is_space w = true) ws
        /\ (is_digit uni_digit c = true \/ is_roman c = true).
Proof.
  unfold is_chapter_header. rewrite orb_true_iff, !match_chapter_spec. split.
  - intros [(ws & c & rest & H & Hne & Hws & Hp)|(ws & c & rest & H & Hne & Hws & Hp)];
      exists ws, c, rest; tauto.
  - intros (ws & c & rest & H & Hne & Hws & [Hp|Hp]); [left|right];
      by exists ws, c, rest.
Qed.

Lemma main_characters_ascii (x : text) :
  x ∈ main_characters -> forallb (fun c => c <? 128) x = true.
Proof.
  unfold main_characters. rewrite !elem_of_cons, elem_of_nil.
  intros H. repeat (destruct H as [->|H]; [reflexivity|]). done.
Qed.

Lemma contains_app (u a b : text) : contains u (a ++ u ++ b) = true.
Proof.
  induction a as [|x a IH]; simpl.
  - destruct (u ++ b) as [|y r] eqn:E.
    + destruct u; [reflexivity | discriminate].
    + simpl. apply orb_true_iff. left.
      rewrite <- E. apply starts_with_spec. by exists b.
  - apply orb_true_iff. by right.
Qed.

Lemma extract_character_mentions_elem (x t : text) :
  x ∈ extract_character_mentions uni_lower t
  <-> x ∈ main_characters
      /\ contains (lower uni_lower x) (lower uni_lower t) = true.
Proof.
  unfold extract_character_mentions.
  rewrite elem_of_elements, elem_of_list_to_set, list_elem_of_In, filter_In.
  by rewrite <- list_elem_of_In.
Qed.

(** X5: [extract_character_mentions] returns each name at most once; a
    name is returned exactly when it is one of the twelve main
    characters and occurs, lower-cased, in the lower-cased text. *)
Theorem extract_character_mentions_spec (t : text) :
  NoDup (extract_character_mentions uni_lower t)
  /\ forall x, x ∈ extract_character_mentions uni_lower t
       <-> x ∈ main_characters
           /\ contains (lower uni_lower x) (lower uni_lower t) = true.
Proof.
  split; [apply NoDup_elements | intros x; apply extract_character_mentions_elem].
Qed.

(** X6: in an ASCII text a main character's name is found in any
    letter case and inside longer words: any occurrence that equals the
    name up to ASCII case, with any text before and after it, is
    reported. *)
Theorem mention_found_in_any_case (name occurrence before after : text) :
  name ∈ main_characters ->
  lower_ascii <$> occurrence = lower_ascii <$> name ->
  forallb (fun c => c <? 128) (before ++ occurrence ++ after) = true ->
  name ∈ extract_character_mentions uni_lower (before ++ occurrence ++ after).
Proof.
  intros Hn Ho Ha. apply extract_character_mentions_elem. split; [done|].
  unfold lower. rewrite (main_characters_ascii _ Hn), Ha.
  rewrite !fmap_app, Ho. apply contains_app.
Qed.

Lemma first_line_app (l rest : text) :
  Forall (fun c => c <> 10) l -> first_line (l ++ 10 :: rest) = l.
Proof.
  intros H. unfold first_line.
  assert (span_len (fun c => negb (c =? 10)) (l ++ 10 :: rest) = length l) as ->.
  { induction H as [|c l Hc _ IH]; [reflexivity|]. simpl.
    apply N.eqb_neq in Hc as ->. simpl. by rewrite IH. }
  by rewrite take_app_length.
Qed.

(** X7: [extract_metadata] decides [is_chapter_start] from the first
    line alone: for a text with a line break, it is [is_chapter_header]
    of the part before the first newline, whatever follows; the page
    number is passed through and the mentions are those of the whole
    text. *)
Theorem extract_metadata_first_line (l rest : text) (page_num : Z) :
  Forall (fun c => c <> 10) l ->
  extract_metadata uni_lower uni_digit (l ++ 10 :: rest) page_num
  = {| ti_page_number := page_num;
       is_chapter_start := is_chapter_header uni_lower uni_digit l;
       character_mentions := extract_character_mentions uni_lower (l ++ 10 :: rest) |}.
Proof. intros H. unfold extract_metadata. by rewrite first_line_app. Qed.

End TextMetadataProps.

Lemma mention_found_in_any_case_witness :
  str "Ron" ∈ TextMetadata.extract_character_mentions (fun t => t)
               (str "that is w" ++ str "RON" ++ str "g").
Proof.
  apply (mention_found_in_any_case (fun t => t) (str "Ron") (str "RON")
           (str "that is w") (str "g")); [|reflexivity|reflexivity].
  unfold TextMetadata.main_characters. set_solver.
Defined.

Lemma extract_metadata_first_line_witness :
  TextMetadata.is_chapter_start
    (TextMetadata.extract_metadata (fun t => t) (fun _ => false)
       (str "Chapter 7" ++ 10 :: str "The boy who lived") 12%Z) = true.
Proof.
  rewrite (extract_metadata_first_line (fun t => t) (fun _ => false)
             (str "Chapter 7") (str "The boy who lived") 12%Z).
  - reflexivity.
  - repeat constructor; discriminate.
Defined.

(** ** Decimal printing *)

Lemma str_inj (a b : string) : str a = str b -> a = b.
Proof.
  unfold str. intros H.
  rewrite <- (string_of_list_ascii_of_string a), <- (string_of_list_ascii_of_string b).
  f_equal. revert H. generalize (list_ascii_of_string a) (list_ascii_of_string b).
  induction l as [|x l IH]; intros [|y l'] H; try done.
  injection H as Hxy Hl. f_equal; [|by apply IH].
  by rewrite <- (ascii_N_embedding x), <- (ascii_N_embedding y), Hxy.
Qed.

Lemma to_int_not_nil (z : Z) : Z.to_int z <> Decimal.Pos Decimal.Nil
                               /\ Z.to_int z <> Decimal.Neg Decimal.Nil.
Proof.
  destruct z as [|p|p]; simpl; split; try discriminate;
    intros [= H]; by apply DecimalPos.Unsigned.to_uint_nonnil in H.
Qed.

(** [str(i)] tells integers apart. *)
Lemma str_of_int_inj (a b : Z) : str_of_int a = str_of_int b -> a = b.
Proof.
  unfold str_of_int. intros H. apply str_inj in H.
  apply DecimalZ.to_int_inj.
  destruct (to_int_not_nil a) as [Ha1 Ha2], (to_int_not_nil b) as [Hb1 Hb2].
  pose proof (NilZero.isi _ Ha1 Ha2) as Ia. pose proof (NilZero.isi _ Hb1 Hb2) as Ib.
  rewrite H in Ia. congruence.
Qed.

(** ** UTF-8 sizes *)

Lemma utf8_len_Return (t : text) (n : nat) :
  utf8_len t = Return n ->
  (length t <= n <= 4 * length t)%nat
  /\ Forall (fun c => in_range 55296 57343 c = false) t
  /\ (Forall (fun c => c < 128) t -> n = length t).
Proof.
  revert n. induction t as [|c tl IH]; intros n H; simpl in H.
  - injection H as <-. repeat split; simpl; try lia. constructor.
  - destruct (utf8_width c) as [w|] eqn:Ew; [|discriminate].
    apply bind_Return in H as (m & Hm & H). injection H as <-.
    destruct (IH _ Hm) as (Hb & Hs & Ha).
    unfold utf8_width in Ew.
    destruct (c <? 128) eqn:E1.
    { injection Ew as <-. repeat split; simpl; try lia.
      - constructor; [|done]. apply N.ltb_lt in E1. unfold in_range.
        apply andb_false_iff. left. apply N.leb_gt. lia.
      - intros Hall. apply Forall_cons in Hall as [_ Hall]. by rewrite (Ha Hall). }
    assert (~ c < 128) as Hc by (by apply N.ltb_ge in E1; lia).
    destruct (c <? 2048) eqn:E2.
    { injection Ew as <-. repeat split; simpl; try lia.
      - constructor; [|done]. apply N.ltb_lt in E2. unfold in_range.
        apply andb_false_iff. left. apply N.leb_gt. lia.
      - intros Hall. apply Forall_cons in Hall as [? _]. done. }
    destruct (in_range 55296 57343 c) eqn:E3; [discriminate|].
    assert ((3 <= w <= 4)%nat) as Hw
      by (destruct (c <? 65536); injection Ew as <-; lia).
    repeat split; simpl; try lia.
    + by constructor.
    + intros Hall. apply Forall_cons in Hall as [? _]. done.
Qed.

(** ** More of [process_pdf] *)

Section ProcessorMore.

Variable uni_lower : text -> text.
Variable ner_entities : text -> list (text * text).
Variable now_iso : nat -> text.

Local Abbreviation process := (process_pdf uni_lower ner_entities now_iso).
Local Abbreviation entry := (chunk_entry uni_lower).
Local Abbreviation entries := (chunk_entries uni_lower).

(** The text, identifier, counts and sizes a chunk record holds. *)
Lemma chunk_entry_fields (self : PDFProcessor) (people : list text)
    (n p i : Z) (c : text) (e : Chunk) :
  entry self people n p i c = Return e ->
  content e = c
  /\ chunk_id e = str "chunk_" ++ str_of_int i
  /\ cm_chunk_id (chunk_metadata e) = chunk_id e
  /\ word_count e = Z.of_nat (count_words c)
  /\ cm_word_count (chunk_metadata e) = word_count e
  /\ char_count e = zlen c
  /\ cm_char_count (chunk_metadata e) = char_count e
  /\ cm_people_mentioned (chunk_metadata e)
     = List.filter (fun name => contains (py_lower uni_lower name)
                                  (py_lower uni_lower c)) people
  /\ (exists sz, utf8_len c = Return sz
                 /\ chunk_size_bytes (chunk_metadata e) = Z.of_nat sz)
  /\ cm_processing_info (chunk_metadata e)
     = {| chunk_method := str "recursive_character";
          cp_chunk_size := chunk_size self;
          cp_chunk_overlap := chunk_overlap self |}.
Proof.
  unfold chunk_entry. intros H.
  apply bind_Return in H as (q & _ & H).
  apply bind_Return in H as (d & _ & H).
  apply bind_Return in H as (sz & Hsz & H). injection H as <-. simpl.
  repeat split; try done. by exists sz.
Qed.

(** A successful call in full: where each part of the result comes
    from. *)
Lemma process_pdf_Return_parts (self : PDFProcessor) (fs : gmap text PdfFile)
    (path : text) (r : ProcessingResult) :
  process self fs path = Return r ->
  exists (f : PdfFile) (pages : list text) (md : gmap text pyval) (fsize : pyval),
    let cs := text_splitter self (join [10] pages) in
    let people := extract_people_names uni_lower ner_entities (join [10] pages) in
    let words := sum_Z ((fun c => Z.of_nat (count_words c)) <$> cs) in
    let chars := sum_Z (zlen <$> cs) in
    fs !! path = Some f
    /\ extract_detailed_metadata uni_lower f = Return md
    /\ loaded_pages f = Return pages
    /\ cs <> []
    /\ entries self (elements people) (zlen cs) (zlen pages) 0 cs = Return (chunks r)
    /\ people_mentioned r = elements people
    /\ metadata r =
         <[str "document_statistics" :=
             PDict [(str "pages", PInt (zlen pages));
                    (str "chunks", PInt (zlen cs));
                    (str "file_size_bytes", fsize);
                    (str "avg_words_per_chunk",
                     PFloat (inject_Z words / inject_Z (zlen cs)))]]>
        (<[str "total_people_mentioned" := PInt (Z.of_nat (size people))]>
        (<[str "processing_timestamp" := PStr (now_iso 0%nat)]>
        (<[str "language_detected" := PStr (str "en")]>
        (<[str "average_chunk_size" := PFloat (inject_Z chars / inject_Z (zlen cs))]>
        (<[str "total_char_count" := PInt chars]>
        (<[str "total_word_count" := PInt words]> md))))))
    /\ document_info r =
         {| total_pages := zlen pages;
            filename := file_name f;
            di_total_chunks := zlen cs;
            file_size_bytes := fsize;
            created_date := default (PStr []) (md !! str "created_date");
            modified_date := default (PStr []) (md !! str "modified_date") |}
    /\ processing_info r =
         {| pi_chunk_size := chunk_size self;
            pi_chunk_overlap := chunk_overlap self;
            processing_date := now_iso 1%nat;
            processor_version := str "1.0.0" |}.
Proof.
  unfold process_pdf. destruct (process_pdf_try _ _ _ _ _ _) as [r'|e] eqn:E; [|discriminate].
  intros [= ->]. unfold process_pdf_try in E.
  destruct (fs !! path) as [f|]; [|discriminate].
  apply bind_Return in E as (md & Hmd & E).
  apply bind_Return in E as (pages & Hp & E).
  apply bind_Return in E as (fsize & Hf1 & E).
  apply bind_Return in E as (avg & Havg & E).
  apply bind_Return in E as (fsize' & Hf2 & E).
  apply bind_Return in E as (avgw & Havgw & E).
  apply bind_Return in E as (es & Hes & E).
  assert (zlen (text_splitter self (join [10%N] pages)) <> 0%Z) as Hn
    by (by apply truediv_Return in Havg).
  rewrite truediv_nonzero in Havg, Havgw by done.
  injection Havg as <-. injection Havgw as <-.
  rewrite Hf1 in Hf2. injection Hf2 as <-.
  injection E as <-. simpl.
  exists f, pages, md, fsize. repeat split; try done.
  intros Hnil. by rewrite Hnil in Hn.
Qed.

(** The chunk at position [i] of a successful call. *)
Lemma process_pdf_chunk_at (self : PDFProcessor) (fs : gmap text PdfFile)
    (path : text) (r : ProcessingResult) :
  process self fs path = Return r ->
  exists (pages cs : list text),
    length (chunks r) = length cs
    /\ total_pages (document_info r) = zlen pages
    /\ di_total_chunks (document_info r) = zlen cs
    /\ forall i e, chunks r !! i = Some e ->
         exists c, cs !! i = Some c
           /\ entry self (people_mentioned r) (zlen cs) (zlen pages) (Z.of_nat i) c
              = Return e.
Proof.
  intros H.
  apply process_pdf_Return_parts in H
    as (f & pages & md & fsize & _ & _ & _ & _ & He & Hpe & _ & Hdi & _).
  apply chunk_entries_Return in He as [Hl Hk].
  exists pages, (text_splitter self (join [10] pages)).
  rewrite Hdi, Hpe. simpl. repeat split; try done.
Qed.

End ProcessorMore.

Section ProcessorExtras.

Variable uni_lower : text -> text.
Variable ner_entities : text -> list (text * text).
Variable now_iso : nat -> text.

Local Abbreviation process := (process_pdf uni_lower ner_entities now_iso).
Local Abbreviation entry := (chunk_entry uni_lower).

(** X8: [process_pdf] on a path that names no file raises
    [FileNotFoundError] with the path in its message, and the [except]
    clause raises it again as it is. *)
Theorem process_pdf_missing_file (self : PDFProcessor) (fs : gmap text PdfFile)
    (path : text) :
  fs !! path = None ->
  process self fs path = Raise (FileNotFoundError (str "PDF file not found: " ++ path)).
Proof. intros H. unfold process_pdf, process_pdf_try. by rewrite H. Qed.

(** X9: when a PDF library raises an exception, other than
    [FileNotFoundError], whose message contains [EOF marker not found],
    or is ASCII and contains [syntax error] in any letter case,
    [process_pdf] raises a [ValueError] whose message is
    [Invalid or corrupted PDF file: ] followed by that message. *)
Theorem process_pdf_corrupted (self : PDFProcessor) (fs : gmap text PdfFile)
    (path : text) (f : PdfFile) (e : exn) :
  fs !! path = Some f ->
  pdf_document f = Raise e
  \/ (succeeded (pdf_document f) = true /\ loaded_pages f = Raise e) ->
  (forall m, e <> FileNotFoundError m) ->
  contains (str "EOF marker not found") (exn_str e) = true
  \/ (forallb (fun c => c <? 128) (exn_str e) = true
      /\ contains (str "syntax error") (lower_ascii <$> exn_str e) = true) ->
  process self fs path
  = Raise (ValueError (str "Invalid or corrupted PDF file: " ++ exn_str e)).
Proof.
  intros Hf Hlib Hnf Hmsg.
  assert (process_pdf_try uni_lower ner_entities now_iso self fs path = Raise e) as Ht.
  { unfold process_pdf_try. rewrite Hf.
    destruct Hlib as [Hd|[Hd Hp]].
    - unfold extract_detailed_metadata. by rewrite Hd.
    - destruct (extract_detailed_metadata_Return uni_lower f Hd) as [md ->].
      by rewrite bind_Return_l, Hp. }
  unfold process_pdf. rewrite Ht. f_equal.
  assert (contains (str "EOF marker not found") (exn_str e)
          || contains (str "syntax error") (py_lower uni_lower (exn_str e)) = true) as Hc.
  { apply orb_true_iff. destruct Hmsg as [H|[Ha H]]; [by left|right].
    unfold py_lower, lower. by rewrite Ha. }
  unfold process_pdf_except. destruct e; try (by rewrite Hc).
  by destruct (Hnf msg).
Qed.

(** The records follow the splitter's chunks, one for one. *)
Lemma chunk_contents (self : PDFProcessor) (fs : gmap text PdfFile)
    (path : text) (r : ProcessingResult) :
  process self fs path = Return r ->
  exists (f : PdfFile) (pages : list text),
    fs !! path = Some f /\ loaded_pages f = Return pages
    /\ content <$> chunks r = text_splitter self (join [10] pages)
    /\ document_info r =
         {| total_pages := zlen pages;
            filename := file_name f;
            di_total_chunks := zlen (chunks r);
            file_size_bytes := file_size_bytes (document_info r);
            created_date := created_date (document_info r);
            modified_date := modified_date (document_info r) |}
    /\ Forall (fun c =>
         total_chunks (chunk_position (chunk_metadata c)) = zlen (chunks r)
         /\ char_count c = zlen (content c)
         /\ word_count c = Z.of_nat (count_words (content c))
         /\ cm_char_count (chunk_metadata c) = char_count c
         /\ cm_word_count (chunk_metadata c) = word_count c
         /\ cm_chunk_id (chunk_metadata c) = chunk_id c
         /\ cp_chunk_size (cm_processing_info (chunk_metadata c)) = chunk_size self
         /\ cp_chunk_overlap (cm_processing_info (chunk_metadata c)) = chunk_overlap self)
         (chunks r).
Proof.
  intros H.
  apply process_pdf_Return_parts in H
    as (f & pages & md & fsize & Hf & _ & Hp & _ & He & _ & _ & Hdi & _).
  simpl in He, Hdi.
  apply chunk_entries_Return in He as [Hl Hk].
  exists f, pages. split; [done|]. split; [done|]. split; [|split].
  - apply list_eq. intros i. rewrite list_lookup_fmap.
    destruct (chunks r !! i) as [e|] eqn:Ei; simpl.
    + destruct (Hk i e Ei) as (c & Hc & Hent).
      apply chunk_entry_fields in Hent as (-> & _). by rewrite Hc.
    + apply lookup_ge_None in Ei. symmetry. apply lookup_ge_None. lia.
  - rewrite Hdi. simpl. unfold zlen. by rewrite Hl.
  - apply Forall_lookup. intros i e Ei.
    destruct (Hk i e Ei) as (c & Hc & Hent).
    pose proof (chunk_entry_Return _ _ _ _ _ _ _ _ Hent) as (_ & _ & _ & _ & _ & Ht & _).
    apply chunk_entry_fields in Hent
      as (Hco & _ & Hid & Hw & Hcw & Hch & Hcc & _ & _ & Hpi).
    rewrite Hco, Ht, Hpi. unfold zlen at 2. rewrite Hl. by repeat split.
Qed.

(** X10: in a result of [process_pdf] the chunk records carry the
    splitter's chunks of the joined page texts, in order; the document
    info counts these records and the pages; and every record's
    [total_chunks], character and word counts agree with its content,
    its two copies of the identifier and counts with each other, and
    its processing info with the configuration. *)
Theorem chunks_mirror_splitter (self : PDFProcessor) (fs : gmap text PdfFile)
    (path : text) (r : ProcessingResult) :
  process self fs path = Return r ->
  exists (f : PdfFile) (pages : list text),
    fs !! path = Some f /\ loaded_pages f = Return pages
    /\ content <$> chunks r = text_splitter self (join [10] pages)
    /\ di_total_chunks (document_info r) = zlen (chunks r)
    /\ total_pages (document_info r) = zlen pages
    /\ filename (document_info r) = file_name f
    /\ Forall (fun c =>
         total_chunks (chunk_position (chunk_metadata c)) = zlen (chunks r)
         /\ char_count c = zlen (content c)
         /\ word_count c = Z.of_nat (count_words (content c))
         /\ cm_char_count (chunk_metadata c) = char_count c
         /\ cm_word_count (chunk_metadata c) = word_count c
         /\ cm_chunk_id (chunk_metadata c) = chunk_id c
         /\ cp_chunk_size (cm_processing_info (chunk_metadata c)) = chunk_size self
         /\ cp_chunk_overlap (cm_processing_info (chunk_metadata c)) = chunk_overlap self)
         (chunks r).
Proof.
  intros H. destruct (chunk_contents _ _ _ _ H) as (f & pages & Hf & Hp & Hc & Hdi & Hall).
  exists f, pages. rewrite Hdi. simpl. by repeat split.
Qed.


(** X12: [chunk_size_bytes] of every chunk is at least its
    [char_count] and at most four times it, and equals it when the
    content is ASCII; no chunk of a result holds a surrogate code
    point, which UTF-8 cannot encode. *)
Theorem chunk_size_bytes_bounds (self : PDFProcessor) (fs : gmap text PdfFile)
    (path : text) (r : ProcessingResult) :
  process self fs path = Return r ->
  Forall (fun c =>
    (char_count c <= chunk_size_bytes (chunk_metadata c) <= 4 * char_count c)%Z
    /\ Forall (fun x => in_range 55296 57343 x = false) (content c)
    /\ (Forall (fun x => x < 128) (content c) ->
        chunk_size_bytes (chunk_metadata c) = char_count c)) (chunks r).
Proof.
  intros H.
  destruct (process_pdf_chunk_at _ _ _ _ _ _ _ H) as (pages & cs & _ & _ & _ & Hk).
  apply Forall_lookup. intros i e Ei.
  destruct (Hk i e Ei) as (c & _ & Hent).
  apply chunk_entry_fields in Hent
    as (-> & _ & _ & _ & _ & -> & _ & _ & (sz & Hsz & ->) & _).
  apply utf8_len_Return in Hsz as (Hb & Hs & Ha). unfold zlen.
  repeat split; try lia; try done. intros Hall. by rewrite (Ha Hall).
Qed.

(** X13: in a result of [process_pdf] the document has at least one
    page and at least as many chunks as pages; the first chunk is on
    page 1 and the page numbers never decrease along the chunks. *)
Theorem page_numbers_monotone (self : PDFProcessor) (fs : gmap text PdfFile)
    (path : text) (r : ProcessingResult) :
  process self fs path = Return r ->
  (1 <= total_pages (document_info r) <= di_total_chunks (document_info r))%Z
  /\ (forall c, chunks r !! 0%nat = Some c -> page_number (chunk_metadata c) = 1%Z)
  /\ (forall i j ci cj, (i <= j)%nat ->
        chunks r !! i = Some ci -> chunks r !! j = Some cj ->
        (page_number (chunk_metadata ci) <= page_number (chunk_metadata cj))%Z).
Proof.
  intros H.
  destruct (process_pdf_chunk_at _ _ _ _ _ _ _ H) as (pages & cs & Hl & -> & -> & Hk).
  assert (forall i e, chunks r !! i = Some e ->
            zlen pages <> 0%Z /\ (zlen cs / zlen pages)%Z <> 0%Z
            /\ page_number (chunk_metadata e)
               = (Z.of_nat i / (zlen cs / zlen pages) + 1)%Z) as Hpn.
  { intros i e Ei. destruct (Hk i e Ei) as (c & _ & Hent).
    apply chunk_entry_Return in Hent as (? & ? & _ & ? & _). done. }
  assert (chunks r <> []) as Hne.
  { apply process_pdf_Return in H as (f' & pages' & _ & _ & Hcs & He & _).
    apply chunk_entries_Return in He as [Hl' _]. intros E. rewrite E in Hl'.
    by destruct (text_splitter self _). }
  destruct (chunks r) as [|e0 es] eqn:Ec; [done|]. clear Hne.
  destruct (Hpn O e0 eq_refl) as (Hp0 & Hq0 & _).
  assert (0 < zlen cs / zlen pages)%Z as Hq.
  { pose proof (Z.div_pos (zlen cs) (zlen pages)). unfold zlen in *. lia. }
  split; [|split].
  - unfold zlen in *. split; [lia|].
    destruct (decide (Z.of_nat (length cs) < Z.of_nat (length pages))%Z); [|lia].
    rewrite Z.div_small in Hq by lia. lia.
  - intros c [= <-]. destruct (Hpn O e0 eq_refl) as (_ & _ & ->). simpl.
    rewrite Z.div_0_l by lia. reflexivity.
  - intros i j ci cj Hij Hi Hj.
    destruct (Hpn i ci Hi) as (_ & _ & ->), (Hpn j cj Hj) as (_ & _ & ->).
    apply Z.add_le_mono_r, Z.div_le_mono; lia.
Qed.

(** X14: the names listed in a result are pairwise different, and a
    chunk lists exactly the names of the result that occur, lower-cased,
    in its lower-cased content, in the order of the result's list. *)
Theorem chunk_people_mentioned (self : PDFProcessor) (fs : gmap text PdfFile)
    (path : text) (r : ProcessingResult) :
  process self fs path = Return r ->
  NoDup (people_mentioned r)
  /\ Forall (fun c =>
       cm_people_mentioned (chunk_metadata c)
       = List.filter (fun name => contains (py_lower uni_lower name)
                                    (py_lower uni_lower (content c)))
           (people_mentioned r)) (chunks r).
Proof.
  intros H. split.
  - apply process_pdf_Return_parts in H
      as (f & pages & md & fsize & _ & _ & _ & _ & _ & -> & _).
    apply NoDup_elements.
  - destruct (process_pdf_chunk_at _ _ _ _ _ _ _ H) as (pages & cs & _ & _ & _ & Hk).
    apply Forall_lookup. intros i e Ei.
    destruct (Hk i e Ei) as (c & _ & Hent).
    by apply chunk_entry_fields in Hent as (-> & _ & _ & _ & _ & _ & _ & -> & _).
Qed.

(** X15: the chunk at position [i] of a result has the identifier
    [chunk_] followed by [i] in decimal, so the identifiers of a result
    are pairwise different. *)
Theorem chunk_ids_distinct (self : PDFProcessor) (fs : gmap text PdfFile)
    (path : text) (r : ProcessingResult) :
  process self fs path = Return r ->
  (forall i c, chunks r !! i = Some c ->
     chunk_id c = str "chunk_" ++ str_of_int (Z.of_nat i))
  /\ NoDup (chunk_id <$> chunks r).
Proof.
  intros H.
  destruct (process_pdf_chunk_at _ _ _ _ _ _ _ H) as (pages & cs & _ & _ & _ & Hk).
  assert (forall i c, chunks r !! i = Some c ->
            chunk_id c = str "chunk_" ++ str_of_int (Z.of_nat i)) as Hid.
  { intros i e Ei. destruct (Hk i e Ei) as (c & _ & Hent).
    by apply chunk_entry_fields in Hent as (_ & -> & _). }
  split; [exact Hid|].
  apply NoDup_alt. intros i j x. rewrite !list_lookup_fmap.
  destruct (chunks r !! i) as [ci|] eqn:Ei; [|discriminate].
  destruct (chunks r !! j) as [cj|] eqn:Ej; [|discriminate].
  simpl. intros [= <-] [= E].
  rewrite (Hid _ _ Ei), (Hid _ _ Ej) in E.
  apply app_inv_head, str_of_int_inj in E. lia.
Qed.

End ProcessorExtras.

Lemma process_pdf_missing_file_witness :
  process_pdf keep_case no_entities noon line_processor (shelf four_lines)
    (str "other.pdf")
  = Raise (FileNotFoundError (str "PDF file not found: " ++ str "other.pdf")).
Proof. apply process_pdf_missing_file. vm_compute. reflexivity. Defined.

Lemma process_pdf_corrupted_witness :
  let broken := {| file_name := str "book.pdf"; file_size := 12;
                   pdf_document := Raise (OtherError (str "PDF Syntax Error: no xref"));
                   loaded_pages := Return [] |} in
  process_pdf keep_case no_entities noon line_processor
    {[ str "book.pdf" := broken ]} (str "book.pdf")
  = Raise (ValueError (str "Invalid or corrupted PDF file: "
                       ++ str "PDF Syntax Error: no xref")).
Proof.
  intros broken.
  apply (process_pdf_corrupted keep_case no_entities noon line_processor
           {[ str "book.pdf" := broken ]} (str "book.pdf") broken
           (OtherError (str "PDF Syntax Error: no xref"))).
  - vm_compute. reflexivity.
  - left. reflexivity.
  - discriminate.
  - right. split; vm_compute; reflexivity.
Defined.

Lemma chunks_mirror_splitter_witness :
  succeeded (run line_processor four_lines) = true
  /\ forall r, run line_processor four_lines = Return r ->
       di_total_chunks (document_info r) = zlen (chunks r).
Proof.
  split; [vm_compute; reflexivity|]. intros r Hr.
  destruct (chunks_mirror_splitter keep_case no_entities noon line_processor
              (shelf four_lines) (str "book.pdf") r Hr)
    as (f & pages & _ & _ & _ & H & _).
  exact H.
Defined.


Lemma chunk_size_bytes_bounds_witness :
  succeeded (run line_processor [str "caf" ++ [233]]) = true
  /\ forall r, run line_processor [str "caf" ++ [233]] = Return r ->
       Forall (fun c =>
         (char_count c <= chunk_size_bytes (chunk_metadata c) <= 4 * char_count c)%Z
         /\ Forall (fun x => in_range 55296 57343 x = false) (content c)
         /\ (Forall (fun x => x < 128) (content c) ->
             chunk_size_bytes (chunk_metadata c) = char_count c)) (chunks r).
Proof.
  split; [vm_compute; reflexivity|]. intros r Hr.
  apply (chunk_size_bytes_bounds keep_case no_entities noon line_processor
           (shelf [str "caf" ++ [233]]) (str "book.pdf") r Hr).
Defined.

Lemma page_numbers_monotone_witness :
  succeeded (run line_processor four_lines) = true
  /\ forall r, run line_processor four_lines = Return r ->
       (1 <= total_pages (document_info r) <= di_total_chunks (document_info r))%Z.
Proof.
  split; [vm_compute; reflexivity|]. intros r Hr.
  apply (page_numbers_monotone keep_case no_entities noon line_processor
           (shelf four_lines) (str "book.pdf") r Hr).
Defined.

Lemma chunk_people_mentioned_witness :
  let ner := fun _ : text => [(str "Harry Potter", str "PERSON")] in
  succeeded (process_pdf keep_case ner noon line_processor (shelf three_lines)
               (str "book.pdf")) = true
  /\ forall r, process_pdf keep_case ner noon line_processor (shelf three_lines)
                 (str "book.pdf") = Return r ->
       NoDup (people_mentioned r).
Proof.
  intros ner. split; [vm_compute; reflexivity|]. intros r Hr.
  apply (chunk_people_mentioned keep_case ner noon line_processor
           (shelf three_lines) (str "book.pdf") r Hr).
Defined.

Lemma chunk_ids_distinct_witness :
  succeeded (run line_processor four_lines) = true
  /\ forall r, run line_processor four_lines = Return r ->
       NoDup (chunk_id <$> chunks r).
Proof.
  split; [vm_compute; reflexivity|]. intros r Hr.
  apply (chunk_ids_distinct keep_case no_entities noon line_processor
           (shelf four_lines) (str "book.pdf") r Hr).
Defined.

(** ** [extract_detailed_metadata] *)

Section MetadataProps.

Variable uni_lower : text -> text.

Local Abbreviation extract := (extract_detailed_metadata uni_lower).

(** X16: [extract_detailed_metadata] raises what parsing the document
    raises; otherwise its dictionary has [page_count], [file_name] and
    [file_size] from the file, whatever the PDF's own information
    holds under these names, and both dates.  With no information the
    dates are empty strings and there are these five keys only; the
    last entry of the information is kept under its lower-cased key
    unless that is one of the five, and when that key is
    [creationdate] its value is the [created_date]. *)
Theorem extract_detailed_metadata_keys (f : PdfFile) :
  (forall e, pdf_document f = Raise e -> extract f = Raise e)
  /\ (forall info n, pdf_document f = Return (info, n) ->
      exists md, extract f = Return md
        /\ md !! str "page_count" = Some (PInt (Z.of_nat n))
        /\ md !! str "file_name" = Some (PStr (file_name f))
        /\ md !! str "file_size" = Some (PInt (file_size f))
        /\ is_Some (md !! str "created_date")
        /\ is_Some (md !! str "modified_date")
        /\ (info = [] ->
            md !! str "created_date" = Some (PStr [])
            /\ md !! str "modified_date" = Some (PStr [])
            /\ size md = 5%nat)
        /\ (forall info' k v, info = info' ++ [(Some k, v)] ->
            (py_lower uni_lower k
               ∉ [str "page_count"; str "file_name"; str "file_size";
                  str "created_date"; str "modified_date"] ->
             md !! py_lower uni_lower k = Some v)
            /\ (py_lower uni_lower k = str "creationdate" ->
                md !! str "created_date" = Some v))).
Proof.
  split.
  - intros e He. unfold extract_detailed_metadata. by rewrite He.
  - intros info n Hd. unfold extract_detailed_metadata. rewrite Hd, bind_Return_l.
    eexists. split; [reflexivity|]. simpl.
    split; [apply lookup_insert_eq|].
    split; [rewrite lookup_insert_ne by (intros E; vm_compute in E; discriminate);
            apply lookup_insert_eq|].
    split; [rewrite !lookup_insert_ne by (intros E; vm_compute in E; discriminate);
            apply lookup_insert_eq|].
    split; [rewrite !lookup_insert_ne by (intros E; vm_compute in E; discriminate);
            rewrite lookup_insert_eq; by eexists|].
    split; [rewrite !lookup_insert_ne by (intros E; vm_compute in E; discriminate);
            rewrite lookup_insert_eq; by eexists|].
    split.
    + intros ->. simpl. split; [|split].
      * rewrite !lookup_insert_ne by (intros E; vm_compute in E; discriminate).
        by rewrite lookup_insert_eq.
      * rewrite !lookup_insert_ne by (intros E; vm_compute in E; discriminate).
        by rewrite lookup_insert_eq.
      * vm_compute. reflexivity.
    + intros info' k v ->. rewrite foldl_snoc. simpl. split.
      * intros Hk. rewrite !elem_of_cons, elem_of_nil in Hk.
        rewrite !lookup_insert_ne by (intros E; apply Hk; rewrite <- E; tauto).
        apply lookup_insert_eq.
      * intros Hk. rewrite !lookup_insert_ne by (intros E; vm_compute in E; discriminate).
        rewrite lookup_insert_eq. rewrite Hk. by rewrite lookup_insert_eq.
Qed.

End MetadataProps.

(** ** More of [save_to_json] *)

Section SaveToJsonMore.

Variable V : Type.
Variable json_dump : gmap text V -> text + text * exn.
Variable parent_chain : text -> list text.
Variable mkdir_error : FileSystem -> text -> option exn.
Variable open_error : FileSystem -> text -> option exn.

Local Abbreviation save :=
  (save_to_json V json_dump parent_chain mkdir_error open_error).


End SaveToJsonMore.

(** ** [upsert_documents] *)

Section VectorStoreProps.
Import VectorStore.

Variable open_index : option exn.
Variable index_upsert : list Vector -> option exn.

Local Abbreviation batch_at :=
  (fun (vectors : list Vector) (i : nat) => take batch_size (drop i vectors)).

(** The loop sends the batches in order and stops at the first one the
    index refuses. *)
Lemma upsert_loop_spec (vectors : list Vector) (starts : list nat) :
  forall sent sent' res,
  upsert_loop index_upsert vectors starts sent = (sent', res) ->
  exists k,
    (k <= length starts)%nat
    /\ sent' = sent ++ (batch_at vectors <$> take k starts)
    /\ Forall (fun i => index_upsert (batch_at vectors i) = None) (take k starts)
    /\ match res with
       | Return _ => k = length starts
       | Raise e => exists i, starts !! k = Some i
                              /\ index_upsert (batch_at vectors i) = Some e
       end.
Proof.
  induction starts as [|i rest IH]; intros sent sent' res H; simpl in H.
  - injection H as <- <-. exists O. simpl. rewrite app_nil_r. repeat split; done.
  - destruct (index_upsert (take batch_size (drop i vectors))) as [e|] eqn:E.
    + injection H as <- <-. exists O. simpl. rewrite app_nil_r.
      repeat split; try done; [lia|]. by exists i.
    + destruct (IH _ _ _ H) as (k & Hk & -> & Hall & Hres).
      exists (S k). simpl. rewrite <- app_assoc. simpl.
      repeat split; try done; [lia | by constructor |].
      destruct res; [lia | done].
Qed.

Lemma batch_starts_take (n k : nat) :
  (k <= length (batch_starts n))%nat ->
  take k (batch_starts n) = (fun j => j * batch_size)%nat <$> seq 0 k.
Proof.
  unfold batch_starts. rewrite length_fmap, length_seq. intros Hk.
  rewrite <- fmap_take. f_equal.
  apply list_eq. intros j. destruct (decide (j < k)%nat).
  - rewrite lookup_take_lt, !lookup_seq_lt by lia. done.
  - rewrite lookup_take_ge, lookup_seq_ge by lia. done.
Qed.

Lemma concat_batches (vectors : list Vector) (k : nat) :
  concat (batch_at vectors <$> ((fun j => j * batch_size)%nat <$> seq 0 k))
  = take (k * batch_size) vectors.
Proof.
  induction k as [|k IH]; [reflexivity|].
  rewrite Nat.mul_succ_l, <- take_take_drop, <- IH.
  rewrite seq_S, !fmap_app, concat_app. f_equal.
  cbn -[batch_size Nat.mul take drop]. by rewrite app_nil_r.
Qed.

Lemma batch_starts_length (n : nat) :
  let m := length (batch_starts n) in
  (m * 100 < n + 100 /\ n <= m * 100)%nat.
Proof.
  unfold batch_starts, batch_size. rewrite length_fmap, length_seq. cbv zeta.
  change (100 - 1)%nat with 99%nat.
  pose proof (Nat.div_mod_eq (n + 99) 100).
  pose proof (Nat.mod_upper_bound (n + 99) 100). lia.
Qed.

(** X18: when [upsert_documents] returns, the index has accepted every
    vector exactly once and in order, in batches of 100 vectors, the
    last one of 1 to 100; it reports success and the number of
    documents. *)
Theorem upsert_documents_batches (documents : list Document)
    (sent : list (list Vector)) (st : UpsertStatus) :
  upsert_documents open_index index_upsert documents = (sent, Return st) ->
  concat sent = make_vectors documents
  /\ Forall (fun b => (0 < length b <= 100)%nat /\ index_upsert b = None) sent
  /\ (forall k b, sent !! k = Some b -> (S k < length sent)%nat -> length b = 100%nat)
  /\ st = {| us_status := str "success";
             documents_processed := Z.of_nat (length documents) |}.
Proof.
  unfold upsert_documents. destruct open_index; [discriminate|].
  destruct (upsert_loop _ _ _ _) as [sent' res] eqn:E.
  destruct res as [[]|e]; [|discriminate]. intros [= <- <-].
  apply upsert_loop_spec in E as (k & Hk & -> & Hall & ->). simpl.
  set (vs := make_vectors documents) in *.
  pose proof (batch_starts_length (length vs)) as [Hm1 Hm2]. simpl in Hm1, Hm2.
  rewrite (batch_starts_take (length vs) _ (le_n _)) in Hall |- *.
  set (m := length (batch_starts (length vs))) in *.
  split; [|split; [|split; [|reflexivity]]].
  - rewrite concat_batches. apply take_ge. unfold batch_size. lia.
  - apply Forall_fmap, Forall_fmap. apply Forall_fmap in Hall.
    rewrite Forall_forall in Hall |- *. intros j Hj. simpl.
    split; [|by apply Hall].
    apply elem_of_seq in Hj. rewrite length_take, length_drop.
    unfold batch_size. lia.
  - intros j b. rewrite !length_fmap, length_seq, !list_lookup_fmap.
    destruct (seq 0 m !! j) as [j'|] eqn:Ej; [|discriminate].
    apply lookup_seq in Ej as [-> Hj]. simpl. intros [= <-] Hlt.
    rewrite length_take, length_drop. unfold batch_size. lia.
Qed.

(** X19: when [upsert_documents] raises, either the index could not be
    opened and nothing was sent, or the exception is that of the first
    batch the index refused: the batches before it were accepted, in
    order, and no later batch was sent. *)
Theorem upsert_documents_failure (documents : list Document)
    (sent : list (list Vector)) (e : exn) :
  upsert_documents open_index index_upsert documents = (sent, Raise e) ->
  (open_index = Some e /\ sent = [])
  \/ (open_index = None
      /\ concat sent = take (length sent * 100) (make_vectors documents)
      /\ (length sent * 100 < length documents)%nat
      /\ index_upsert (take 100 (drop (length sent * 100) (make_vectors documents)))
         = Some e).
Proof.
  unfold upsert_documents. destruct open_index as [e0|]; [intros [= <- <-]; by left|].
  destruct (upsert_loop _ _ _ _) as [sent' res] eqn:E.
  destruct res as [[]|e']; [discriminate|]. intros [= <- <-]. right.
  apply upsert_loop_spec in E as (k & Hk & -> & Hall & i & Hi & He). simpl.
  set (vs := make_vectors documents) in *.
  pose proof (batch_starts_length (length vs)) as [Hm1 Hm2]. simpl in Hm1, Hm2.
  pose proof (lookup_lt_Some _ _ _ Hi) as Hlt.
  rewrite (batch_starts_take (length vs) k Hk).
  rewrite !length_fmap, length_seq.
  unfold batch_starts in Hi. rewrite list_lookup_fmap in Hi.
  destruct (seq 0 _ !! k) as [k'|] eqn:Ek; [|discriminate].
  apply lookup_seq in Ek as [-> _]. injection Hi as <-.
  split; [done|]. split; [apply concat_batches|]. split; [|exact He].
  assert (length vs = length documents) as <- by apply length_imap.
  unfold batch_size in *. lia.
Qed.

(** X20: the vector made of the document at position [i] has the
    identifier [doc_] followed by [i] in decimal and the document's
    text; its metadata are the document's, with [chunk_id] set to [i]
    whatever the document had there.  The identifiers of one call are
    pairwise different, and they are the same for any other list of
    as many documents. *)
Theorem make_vectors_spec (documents : list Document) :
  length (make_vectors documents) = length documents
  /\ (forall i d, documents !! i = Some d ->
        exists v, make_vectors documents !! i = Some v
          /\ vec_id v = str "doc_" ++ str_of_int (Z.of_nat i)
          /\ vec_text v = page_content d
          /\ vec_metadata v !! str "chunk_id" = Some (PInt (Z.of_nat i))
          /\ forall key, key <> str "chunk_id" ->
               vec_metadata v !! key = doc_metadata d !! key)
  /\ NoDup (vec_id <$> make_vectors documents)
  /\ (forall others, length others = length documents ->
        vec_id <$> make_vectors others = vec_id <$> make_vectors documents).
Proof.
  unfold make_vectors. split; [apply length_imap|]. split; [|split].
  - intros i d Hd. eexists. rewrite list_lookup_imap, Hd. simpl.
    split; [reflexivity|]. repeat split.
    + apply lookup_insert_eq.
    + intros key Hk. by apply lookup_insert_ne.
  - apply NoDup_alt. intros i j x. rewrite !list_lookup_fmap, !list_lookup_imap.
    destruct (documents !! i), (documents !! j); simpl; try discriminate.
    intros [= <-] [= E]. apply str_of_int_inj in E. lia.
  - intros others Hl. apply list_eq. intros i.
    rewrite !list_lookup_fmap, !list_lookup_imap.
    destruct (documents !! i) as [d|] eqn:Ed.
    + destruct (lookup_lt_is_Some_2 others i) as [o Ho];
        [rewrite Hl; by apply lookup_lt_Some in Ed|].
      by rewrite Ho.
    + apply lookup_ge_None in Ed.
      rewrite (proj2 (lookup_ge_None others i)) by lia. done.
Qed.

End VectorStoreProps.

(** ** The document routes *)

Section RoutesProps.
Import VectorStore DocumentRoutes.

Variable uni_lower : text -> text.
Variable ner_entities : text -> list (text * text).
Variable now_iso : nat -> text.
Variable open_index : option exn.
Variable index_upsert : list Vector -> option exn.
Variable format_status : ProcessingStatus -> text.

Local Abbreviation background :=
  (process_document uni_lower ner_entities now_iso open_index index_upsert).

Lemma process_document_outcome (file_path doc_id : text) (self : PDFProcessor)
    (fs : gmap text PdfFile) (st : gmap text ProcessingStatus) :
  exists e,
    background file_path doc_id self fs st
    = (<[doc_id := FAILED]> (<[doc_id := PROCESSING]> st), [], Raise e)
    /\ (forall r, process_pdf uni_lower ner_entities now_iso self fs file_path = Return r ->
          e = TypeError (str "object dict can't be used in 'await' expression")).
Proof.
  unfold process_document.
  destruct (process_pdf uni_lower ner_entities now_iso self fs file_path) as [r|e0].
  - rewrite bind_Return_l. simpl. eexists. split; [reflexivity|]. done.
  - rewrite bind_Raise. eexists. split; [reflexivity|]. discriminate.
Qed.

(** X21: whatever [process_pdf] does, [process_document] ends with the
    document's status set to FAILED and raises: [process_pdf] is no
    coroutine, so awaiting the dictionary it returns is a type error.
    The status is never COMPLETED, no batch is sent to the index, and
    the status of every other document is left as it was. *)
Theorem process_document_always_fails (file_path doc_id : text)
    (self : PDFProcessor) (fs : gmap text PdfFile)
    (st : gmap text ProcessingStatus) :
  let out := background file_path doc_id self fs st in
  out.1.1 !! doc_id = Some FAILED
  /\ (forall other, other <> doc_id -> out.1.1 !! other = st !! other)
  /\ out.1.2 = []
  /\ succeeded out.2 = false
  /\ (forall r, process_pdf uni_lower ner_entities now_iso self fs file_path = Return r ->
        out.2 = Raise (TypeError (str "object dict can't be used in 'await' expression"))).
Proof.
  destruct (process_document_outcome file_path doc_id self fs st) as (e & -> & He).
  simpl. split; [apply lookup_insert_eq|]. split; [|split; [done|split; [done|]]].
  - intros other Ho. by rewrite !lookup_insert_ne.
  - intros r Hr. by rewrite (He r Hr).
Qed.

(** X22: [get_processing_status] answers 404 exactly for the
    identifiers the status dictionary does not hold, and otherwise
    gives the stored status; after [process_document] has run for a
    document, it answers FAILED for it. *)
Theorem get_processing_status_spec (st : gmap text ProcessingStatus)
    (file_path doc_id : text) (self : PDFProcessor) (fs : gmap text PdfFile) :
  (forall d, st !! d = None <->
     get_processing_status format_status st d
     = inl {| status_code := 404; detail := str "Document not found" |})
  /\ (forall d s, st !! d = Some s <->
        exists resp, get_processing_status format_status st d = inr resp
                     /\ pr_status resp = s)
  /\ (exists resp,
        get_processing_status format_status
          (background file_path doc_id self fs st).1.1 doc_id = inr resp
        /\ pr_status resp = FAILED).
Proof.
  unfold get_processing_status. split; [|split].
  - intros d. destruct (st !! d); split; done.
  - intros d s. destruct (st !! d) as [s'|]; split.
    + intros [= ->]. by eexists.
    + by intros (resp & [= <-] & <-).
    + discriminate.
    + by intros (resp & ? & _).
  - destruct (process_document_outcome file_path doc_id self fs st) as (e & -> & _).
    simpl. rewrite lookup_insert_eq. by eexists.
Qed.

End RoutesProps.

Lemma upsert_documents_batches_witness :
  let documents := replicate 101 {| VectorStore.page_content := str "text";
                                    VectorStore.doc_metadata := ∅ |} in
  let out := VectorStore.upsert_documents None (fun _ => None) documents in
  length <$> out.1 = [100; 1]%nat
  /\ forall sent st, out = (sent, Return st) ->
       concat sent = VectorStore.make_vectors documents.
Proof.
  intros documents out. split; [vm_compute; reflexivity|]. intros sent st H.
  apply (upsert_documents_batches None (fun _ => None) documents sent st H).
Defined.

Lemma upsert_documents_failure_witness :
  let documents := replicate 101 {| VectorStore.page_content := str "text";
                                    VectorStore.doc_metadata := ∅ |} in
  let refuse_short := fun b : list VectorStore.Vector =>
    if (length b <? 100)%nat then Some (OtherError (str "refused")) else None in
  let out := VectorStore.upsert_documents None refuse_short documents in
  (length <$> out.1 = [100]%nat /\ out.2 = Raise (OtherError (str "refused")))
  /\ forall sent e, out = (sent, Raise e) ->
       (None = Some e /\ sent = [])
       \/ (None = None (A := exn)
           /\ concat sent = take (length sent * 100) (VectorStore.make_vectors documents)
           /\ (length sent * 100 < length documents)%nat
           /\ refuse_short (take 100 (drop (length sent * 100)
                                        (VectorStore.make_vectors documents)))
              = Some e).
Proof.
  intros documents refuse_short out.
  split; [split; vm_compute; reflexivity|]. intros sent e H.
  apply (upsert_documents_failure None refuse_short documents sent e H).
Defined.
